(** * pitch-perfect-practice: the audio transform pipeline of [server.js]

    A shallow embedding of the request handlers, the filter planner inside
    [processAudioWithFFmpeg] and the temp-file sweep [cleanupTempFiles],
    followed by the properties the specification states about them.

    Conventions of the embedding.
    - A JavaScript number is a rational ([Q]).  The planner only compares a
      number with a literal and divides it by [2] or by [0.5]; both divisions
      are exact on binary64, so on the planner the rational model and the
      floating-point one take the same branches (module [Binary64] replays the
      tempo block on primitive floats).
    - A number that is read in a string ([Number(s)], [parseInt(s)]) is the
      rational value of the binary64 number nearest to the literal; a number
      of a JSON body is the value the parser has produced in the same way.
    - A conversion that can throw returns an [option]: [None] is the
      [TypeError].
    - A [while] loop is a [Fixpoint] on a fuel argument that returns [None]
      when the fuel runs out; a run that needs more iterations than any fuel
      provides is a run that does not terminate.
    - A filter string is a constructor of [Filter]: the template literal
      [`atempo=${speed}`] is [atempo speed].
    - The collaborators ([ytdl], [ffmpeg], the read stream, the timers) are
      the environment: what they answer is an [Event] delivered to the
      handler, and every call the handler makes to them is logged. *)

From Stdlib Require Import QArith Qreals Reals ZArith Lia Ascii String.
From Stdlib Require PrimFloat Floats Uint63.
From Stdlib Require Lqa Lra.
From stdpp Require Import gmap strings list pretty.

Local Open Scope Q_scope.

#[local] Set Warnings "-clear-no-such-hyp".

(* ===================================================================== *)
(** * Part I. Definitions                                                  *)
(* ===================================================================== *)

(** ** 1. The filter planner ([processAudioWithFFmpeg], the [audioFilters]
       block) *)

(** [Math.pow(base, exponent)], kept symbolic: its value is irrational for
    most semitone offsets. *)
Record PowExpr := Math_pow { pow_base : Q; pow_exponent : Q }.

(** The elements pushed onto [audioFilters]:
    [`asetrate=44100*${pitchRatio},aresample=44100`] and [`atempo=${speed}`]
    (['atempo=2'] and ['atempo=0.5'] are [atempo] at those literals). *)
Inductive Filter :=
| asetrate_aresample (rate : Z) (pitchRatio : PowExpr) (resample : Z)
| atempo (speed : Q).

(** [x > y] and [x < y] on numbers. *)
Definition Qgtb (x y : Q) : bool := negb (Qle_bool x y).
Definition Qltb (x y : Q) : bool := negb (Qle_bool y x).

(** [while (speed > 2) { audioFilters.push('atempo=2'); speed /= 2; }] *)
Fixpoint while_speed_gt_2 (fuel : nat) (audioFilters : list Filter) (speed : Q)
  : option (list Filter * Q) :=
  if Qgtb speed 2 then
    match fuel with
    | O => None
    | S fuel' => while_speed_gt_2 fuel' (audioFilters ++ [atempo 2]) (speed / 2)
    end
  else Some (audioFilters, speed).

(** [while (speed < 0.5) { audioFilters.push('atempo=0.5'); speed /= 0.5; }] *)
Fixpoint while_speed_lt_half (fuel : nat) (audioFilters : list Filter) (speed : Q)
  : option (list Filter * Q) :=
  if Qltb speed (1#2) then
    match fuel with
    | O => None
    | S fuel' =>
        while_speed_lt_half fuel' (audioFilters ++ [atempo (1#2)]) (speed / (1#2))
    end
  else Some (audioFilters, speed).

(** The block guarded by [if (playbackSpeed !== 1)]. *)
Definition tempoFilters (fuel : nat) (audioFilters : list Filter) (playbackSpeed : Q)
  : option (list Filter) :=
  if negb (Qeq_bool playbackSpeed 1) then
    match while_speed_gt_2 fuel audioFilters playbackSpeed with
    | None => None
    | Some (audioFilters1, speed1) =>
        match while_speed_lt_half fuel audioFilters1 speed1 with
        | None => None
        | Some (audioFilters2, speed2) =>
            if negb (Qeq_bool speed2 1)
            then Some (audioFilters2 ++ [atempo speed2])
            else Some audioFilters2
        end
    end
  else Some audioFilters.

(** The block guarded by [if (pitchShift !== 0)]. *)
Definition pitchFilters (audioFilters : list Filter) (pitchShift : Q) : list Filter :=
  if negb (Qeq_bool pitchShift 0) then
    let pitchRatio := Math_pow 2 (pitchShift / 12) in
    audioFilters ++ [asetrate_aresample 44100 pitchRatio 44100]
  else audioFilters.

(** The value of [audioFilters] when [command.audioFilters] is reached. *)
Definition audioFilters (fuel : nat) (pitchShift playbackSpeed : Q)
  : option (list Filter) :=
  tempoFilters fuel (pitchFilters [] pitchShift) playbackSpeed.

(** Fuel that suffices for both loops on a positive speed [n/d]: the first
    loop halves at most [size n] times, the second doubles at most [size d]
    times. *)
Definition tempo_fuel (playbackSpeed : Q) : nat :=
  (Pos.to_nat (Pos.size (Z.to_pos (Qnum playbackSpeed)))
   + Pos.to_nat (Pos.size (Qden playbackSpeed)))%nat.

(** What the filters mean. *)
Definition pow_value (p : PowExpr) : R :=
  Rpower (Q2R (pow_base p)) (Q2R (pow_exponent p)).

(** The sample rate [asetrate] is set to, and the one [aresample] restores. *)
Definition asetrate_value (f : Filter) : option R :=
  match f with
  | asetrate_aresample rate pitchRatio _ => Some (IZR rate * pow_value pitchRatio)%R
  | atempo _ => None
  end.

Definition aresample_value (f : Filter) : option Z :=
  match f with
  | asetrate_aresample _ _ resample => Some resample
  | atempo _ => None
  end.

Definition is_atempo (f : Filter) : bool :=
  match f with atempo _ => true | asetrate_aresample _ _ _ => false end.

Definition is_pitch (f : Filter) : bool := negb (is_atempo f).

(** The factors of the [atempo] filters of a chain, in order. *)
Fixpoint atempo_factors (fs : list Filter) : list Q :=
  match fs with
  | [] => []
  | atempo q :: fs' => q :: atempo_factors fs'
  | asetrate_aresample _ _ _ :: fs' => atempo_factors fs'
  end.

Fixpoint Qproduct (qs : list Q) : Q :=
  match qs with
  | [] => 1
  | q :: qs' => q * Qproduct qs'
  end.

(** The decomposition as the specification words it (section 4.1): "while
    ratio > 2, append a x2 step and divide ratio by 2; while ratio < 0.5,
    append a x0.5 step and divide ratio by 0.5; once ratio is in [0.5, 2.0]
    and is not 1, append one final step at that exact ratio". *)
Inductive spec_halving : Q -> list Q -> Q -> Prop :=
| spec_halving_done ratio :
    ~ 2 < ratio -> spec_halving ratio [] ratio
| spec_halving_step ratio steps ratio' :
    2 < ratio -> spec_halving (ratio / 2) steps ratio' ->
    spec_halving ratio (2 :: steps) ratio'.

Inductive spec_doubling : Q -> list Q -> Q -> Prop :=
| spec_doubling_done ratio :
    ~ ratio < 1#2 -> spec_doubling ratio [] ratio
| spec_doubling_step ratio steps ratio' :
    ratio < 1#2 -> spec_doubling (ratio / (1#2)) steps ratio' ->
    spec_doubling ratio ((1#2) :: steps) ratio'.

Inductive spec_final : Q -> list Q -> Prop :=
| spec_final_step ratio :
    1#2 <= ratio -> ratio <= 2 -> ~ ratio == 1 -> spec_final ratio [ratio]
| spec_final_none ratio :
    ratio == 1 -> spec_final ratio [].

(** "If speed is not 1: ... decompose the requested ratio into a chain". *)
Definition spec_tempo_chain (speed : Q) (chain : list Q) : Prop :=
  (speed == 1 /\ chain = []) \/
  (~ speed == 1 /\
   exists halves ratio1 doubles ratio2 final,
     spec_halving speed halves ratio1 /\
     spec_doubling ratio1 doubles ratio2 /\
     spec_final ratio2 final /\
     chain = halves ++ doubles ++ final).

(** The same block on binary64 numbers, which is what the program computes
    with.  [NaN] and the infinities are numbers here: a comparison with [NaN]
    is false, and [NaN !== 1] is true. *)
Module Binary64.

Import PrimFloat.

Fixpoint while_speed_gt_2 (fuel : nat) (audioFilters : list float) (speed : float)
  : option (list float * float) :=
  if ltb 2 speed then
    match fuel with
    | O => None
    | S fuel' => while_speed_gt_2 fuel' (audioFilters ++ [2%float]) (div speed 2)
    end
  else Some (audioFilters, speed).

Fixpoint while_speed_lt_half (fuel : nat) (audioFilters : list float) (speed : float)
  : option (list float * float) :=
  if ltb speed 0.5 then
    match fuel with
    | O => None
    | S fuel' =>
        while_speed_lt_half fuel' (audioFilters ++ [0.5%float]) (div speed 0.5)
    end
  else Some (audioFilters, speed).

(** The factors of the [atempo] filters pushed for [playbackSpeed]. *)
Definition tempoFilters (fuel : nat) (playbackSpeed : float) : option (list float) :=
  if negb (eqb playbackSpeed 1) then
    match while_speed_gt_2 fuel [] playbackSpeed with
    | None => None
    | Some (audioFilters1, speed1) =>
        match while_speed_lt_half fuel audioFilters1 speed1 with
        | None => None
        | Some (audioFilters2, speed2) =>
            if negb (eqb speed2 1)
            then Some (audioFilters2 ++ [speed2])
            else Some audioFilters2
        end
    end
  else Some [].

End Binary64.

(** ** 2. JavaScript values of a request

    A field of [req.body] is a JSON value, or [undefined] when the key is
    absent.  Strings are sequences of ASCII characters; [JNumber n] is the
    binary64 number of value [n], and an object lists its own keys. *)

#[local] Set Warnings "-register-all".

Inductive JSValue :=
| JUndefined
| JNull
| JBool (b : bool)
| JNumber (n : Q)
| JString (s : string)
| JArray (elements : list JSValue)
| JObject (properties : list (string * JSValue)).

(** The result of a conversion to a number. *)
Inductive JSNum := NaN | Fin (q : Q) | PosInfinity | NegInfinity.

Definition JSNum_lt (x y : JSNum) : bool :=
  match x, y with
  | Fin a, Fin b => Qltb a b
  | NegInfinity, Fin _ | NegInfinity, PosInfinity | Fin _, PosInfinity => true
  | _, _ => false
  end.

Definition JSNum_scale (sign : Z) (x : JSNum) : JSNum :=
  match x with
  | NaN => NaN
  | Fin q => Fin (inject_Z sign * q)
  | PosInfinity => if (sign <? 0)%Z then NegInfinity else PosInfinity
  | NegInfinity => if (sign <? 0)%Z then PosInfinity else NegInfinity
  end.

Definition char_between (lo hi : nat) (c : ascii) : bool :=
  (lo <=? nat_of_ascii c)%nat && (nat_of_ascii c <=? hi)%nat.

Definition is_digit : ascii -> bool := char_between 48 57.
Definition is_upper : ascii -> bool := char_between 65 90.
Definition is_lower : ascii -> bool := char_between 97 122.

(** The character class [[a-zA-Z0-9_-]]. *)
Definition is_id_char (c : ascii) : bool :=
  is_lower c || is_upper c || is_digit c || Ascii.eqb c "_" || Ascii.eqb c "-".

(** [/^[a-zA-Z0-9_-]{11}$/.test(s)] *)
Definition video_id_regex_test (s : string) : bool :=
  (String.length s =? 11)%nat && forallb is_id_char (list_ascii_of_string s).

(** [s.includes(search)] *)
Fixpoint includes (s search : string) : bool :=
  String.prefix search s ||
  match s with
  | EmptyString => false
  | String _ s' => includes s' search
  end.

(** White space of the numeric-string grammar (tab, line feed, vertical tab,
    form feed, carriage return, space). *)
Definition is_whitespace (c : ascii) : bool :=
  char_between 9 13 c || Ascii.eqb c " ".

Fixpoint skip_whitespace (s : list ascii) : list ascii :=
  match s with
  | c :: s' => if is_whitespace c then skip_whitespace s' else s
  | [] => []
  end.

Definition trim (s : list ascii) : list ascii :=
  rev (skip_whitespace (rev (skip_whitespace s))).

Definition digit_of (radix : Z) (c : ascii) : option Z :=
  let n := Z.of_nat (nat_of_ascii c) in
  let d := if is_digit c then Some (n - 48)%Z
           else if is_lower c then Some (n - 97 + 10)%Z
           else if is_upper c then Some (n - 65 + 10)%Z
           else None in
  match d with
  | Some v => if (v <? radix)%Z then Some v else None
  | None => None
  end.

(** The longest prefix of digits of the radix: its value, its length and what
    follows it. *)
Fixpoint read_digits (radix : Z) (s : list ascii) (acc : Z) (count : nat)
  : Z * nat * list ascii :=
  match s with
  | c :: s' =>
      match digit_of radix c with
      | Some d => read_digits radix s' (radix * acc + d)%Z (S count)
      | None => (acc, count, s)
      end
  | [] => (acc, count, [])
  end.

Definition read_sign (s : list ascii) : Z * list ascii :=
  match s with
  | c :: s' =>
      if Ascii.eqb c "+" then (1%Z, s')
      else if Ascii.eqb c "-" then ((-1)%Z, s')
      else (1%Z, s)
  | [] => (1%Z, [])
  end.

(** Every number of JavaScript is a binary64 value: the value of a numeric
    literal is the double nearest to it, ties going to the even significand,
    and an infinity from [2^1024 - 2^970] on.  [floor_log2 n d] is the
    exponent of [n / d], and the doubles around [n / d] are the multiples of
    [2 ^ t] for [t] the exponent less 52, or -1074 among the subnormals. *)
Definition floor_log2 (n d : positive) : Z :=
  let k := (Z.log2 (Z.pos n) - Z.log2 (Z.pos d))%Z in
  if (0 <=? k)%Z
  then if (Z.pos d * 2 ^ k <=? Z.pos n)%Z then k else (k - 1)%Z
  else if (Z.pos d <=? Z.pos n * 2 ^ (- k))%Z then k else (k - 1)%Z.

Definition round_half_even (n d : Z) : Z :=
  let q := (n / d)%Z in
  match (2 * (n mod d) ?= d)%Z with
  | Lt => q
  | Gt => (q + 1)%Z
  | Eq => if Z.even q then q else (q + 1)%Z
  end.

Definition binary64_round (n d : positive) : JSNum :=
  let t := Z.max (floor_log2 n d - 52) (-1074) in
  if (0 <=? t)%Z then
    let m := round_half_even (Z.pos n) (Z.pos d * 2 ^ t) in
    if (2 ^ 1024 <=? m * 2 ^ t)%Z then PosInfinity else Fin (inject_Z (m * 2 ^ t))
  else
    let m := round_half_even (Z.pos n * 2 ^ (- t)) (Z.pos d) in
    Fin (Qred (Qmake m (Z.to_pos (2 ^ (- t))))).

(** The Number value for a mathematical value. *)
Definition Number_value (x : Q) : JSNum :=
  match Qnum x with
  | Z0 => Fin 0
  | Zpos n => binary64_round n (Qden x)
  | Zneg n => JSNum_scale (-1) (binary64_round n (Qden x))
  end.

Section Binary64Value.

Import PrimFloat FloatOps SpecFloat.

(** The rational value of a binary64 number. *)
Definition binary64_value (x : float) : JSNum :=
  match Prim2SF x with
  | S754_zero _ => Fin 0
  | S754_finite negative m e =>
      let magnitude :=
        if (0 <=? e)%Z then inject_Z (Z.pos m * 2 ^ e)
        else Qred (Qmake (Z.pos m) (Z.to_pos (2 ^ (- e)))) in
      JSNum_scale (if negative then -1 else 1) (Fin magnitude)
  | S754_infinity negative => if negative then NegInfinity else PosInfinity
  | S754_nan => NaN
  end.

Definition same_number (x y : JSNum) : bool :=
  match x, y with
  | Fin a, Fin b => Qeq_bool a b
  | PosInfinity, PosInfinity | NegInfinity, NegInfinity => true
  | _, _ => false
  end.

End Binary64Value.

(** [ExponentPart], which has to reach the end of the string. *)
Definition ExponentPart (s : list ascii) : option Z :=
  match s with
  | [] => Some 0%Z
  | c :: s' =>
      if Ascii.eqb c "e" || Ascii.eqb c "E" then
        let '(sign, s'') := read_sign s' in
        match read_digits 10 s'' 0 0 with
        | (v, S _, []) => Some (sign * v)%Z
        | _ => None
        end
      else None
  end.

(** [Infinity], [digits . digits? exponent?], [. digits exponent?] or
    [digits exponent?]. *)
Definition StrUnsignedDecimalLiteral (s : list ascii) : JSNum :=
  if String.eqb (string_of_list_ascii s) "Infinity" then PosInfinity else
  let '(int_part, n_int, rest) := read_digits 10 s 0 0 in
  match rest with
  | "."%char :: rest' =>
      let '(frac_part, n_frac, rest'') := read_digits 10 rest' 0 0 in
      if (n_int + n_frac =? 0)%nat then NaN else
      match ExponentPart rest'' with
      | Some e =>
          Number_value
            ((inject_Z int_part + inject_Z frac_part / Qpower 10 (Z.of_nat n_frac))
             * Qpower 10 e)
      | None => NaN
      end
  | _ =>
      if (n_int =? 0)%nat then NaN else
      match ExponentPart rest with
      | Some e => Number_value (inject_Z int_part * Qpower 10 e)
      | None => NaN
      end
  end.

(** [0x], [0o] and [0b] literals, which take no sign. *)
Definition NonDecimalIntegerLiteral (s : list ascii) : option JSNum :=
  match s with
  | z :: p :: ds =>
      let radix :=
        if Ascii.eqb p "x" || Ascii.eqb p "X" then Some 16%Z
        else if Ascii.eqb p "o" || Ascii.eqb p "O" then Some 8%Z
        else if Ascii.eqb p "b" || Ascii.eqb p "B" then Some 2%Z
        else None in
      match Ascii.eqb z "0", radix with
      | true, Some r =>
          match read_digits r ds 0 0 with
          | (v, S _, []) => Some (Number_value (inject_Z v))
          | _ => Some NaN
          end
      | _, _ => None
      end
  | _ => None
  end.

(** The conversion of a string to a number ([StringToNumber]): white space is
    trimmed, the empty string is [0], what is not a numeric literal is [NaN],
    and the value of a literal is rounded to the nearest double. *)
Definition StringToNumber (str : string) : JSNum :=
  let s := trim (list_ascii_of_string str) in
  match s with
  | [] => Fin 0
  | _ =>
      match NonDecimalIntegerLiteral s with
      | Some n => n
      | None => let '(sign, s') := read_sign s in
                JSNum_scale sign (StrUnsignedDecimalLiteral s')
      end
  end.

(** [parseInt(str)] with no radix argument: leading white space, a sign, an
    optional [0x], then the longest prefix of digits. *)
Definition parseInt (str : string) : JSNum :=
  let s := skip_whitespace (list_ascii_of_string str) in
  let '(sign, s1) := read_sign s in
  let '(radix, s2) :=
    match s1 with
    | z :: x :: s' =>
        if Ascii.eqb z "0" && (Ascii.eqb x "x" || Ascii.eqb x "X")
        then (16%Z, s') else (10%Z, s1)
    | _ => (10%Z, s1)
    end in
  match read_digits radix s2 0 0 with
  | (_, O, _) => NaN
  | (v, S _, _) => Number_value (inject_Z (sign * v))
  end.

(** Truthiness, as [!v] and [a || b] test it. *)
Definition truthy (v : JSValue) : bool :=
  match v with
  | JUndefined | JNull => false
  | JBool b => b
  | JNumber n => negb (Qeq_bool n 0)
  | JString s => negb (String.eqb s "")
  | JArray _ | JObject _ => true
  end.

Definition js_or (a b : JSValue) : JSValue := if truthy a then a else b.

(** A destructuring default [{ key = d }] applies to [undefined] only. *)
Definition default_to (d v : JSValue) : JSValue :=
  match v with JUndefined => d | _ => v end.

Section Conversions.

(** The rendering of a number as a string ([Number::toString]) is not
    modelled: every definition below takes it as a parameter, and every
    property holds for all renderings. *)
Variable Number_toString : Q -> string.

(** A conversion of an object to a primitive value can throw a [TypeError]:
    the result of a conversion is [None] when it throws.

    [String(v)].  An array joins its elements with commas, [null] and
    [undefined] elements counting as empty, and throws when an element
    does.  An object of a JSON body inherits [Object.prototype.toString],
    unless a key [toString] of its own shadows it; the value under that key
    is not callable, [valueOf] returns the object itself, and the conversion
    throws. *)
Fixpoint ToString (v : JSValue) : option string :=
  match v with
  | JUndefined => Some "undefined"
  | JNull => Some "null"
  | JBool true => Some "true"
  | JBool false => Some "false"
  | JNumber n => Some (Number_toString n)
  | JString s => Some s
  | JArray elements =>
      String.concat "," <$>
        mapM (fun e => match e with
                       | JUndefined | JNull => Some ""
                       | _ => ToString e
                       end) elements
  | JObject properties =>
      if existsb (fun property => String.eqb (fst property) "toString") properties
      then None
      else Some "[object Object]"
  end%string.

(** [Number(v)]; an array or an object is converted to a primitive value
    first, which is the string above. *)
Definition ToNumber (v : JSValue) : option JSNum :=
  match v with
  | JUndefined => Some NaN
  | JNull => Some (Fin 0)
  | JBool true => Some (Fin 1)
  | JBool false => Some (Fin 0)
  | JNumber n => Some (Fin n)
  | JString s => Some (StringToNumber s)
  | JArray _ | JObject _ => StringToNumber <$> ToString v
  end.

(** [v < q] and [v > q] against a number literal: the value is converted to
    a number, and a comparison with [NaN] is false. *)
Definition js_lt (v : JSValue) (q : Q) : option bool :=
  (fun n => JSNum_lt n (Fin q)) <$> ToNumber v.
Definition js_gt (v : JSValue) (q : Q) : option bool :=
  (fun n => JSNum_lt (Fin q) n) <$> ToNumber v.

(** [a || b] on two comparisons: [b] is evaluated when [a] is false. *)
Definition or_else (a b : option bool) : option bool :=
  match a with
  | Some false => b
  | _ => a
  end.

(** A value is outside [[lo, hi]] when it is a number below [lo] or above
    [hi]; a value that is no number ([NaN]) is neither inside nor outside. *)
Definition outside_range (v : JSValue) (lo hi : Q) : Prop :=
  match ToNumber v with
  | Some (Fin q) => q < lo \/ hi < q
  | Some PosInfinity | Some NegInfinity => True
  | Some NaN | None => False
  end.

Definition inside_range (v : JSValue) (lo hi : Q) : Prop :=
  match ToNumber v with
  | Some (Fin q) => lo <= q /\ q <= hi
  | _ => False
  end.

End Conversions.

(** A rendering of numbers that is right on the integers (below 10^21), to
    run the handlers on examples. *)
Definition Number_toString_integers (q : Q) : string :=
  pretty (Qnum q / Z.pos (Qden q))%Z.

(** ** 3. Responses, collaborators and the temp directory *)

(** What [res.status(code).json({ error })], [res.json(info)] and
    [audioStream.pipe(res)] send.  Of the video information only the duration
    is kept. *)
Inductive ResponseBody :=
| json_error (error : string)
| json_video_info (lengthSeconds : JSNum)
| audio_mpeg.

Record Response := { status : nat; body : ResponseBody }.

(** The calls that leave the process. *)
Inductive ExternalCall :=
| ytdl_getInfo (videoUrl : string)
| ytdl_download (videoUrl outputPath : string)
| ffmpeg_run (inputPath outputPath : string) (pitchShift playbackSpeed : JSValue).

Definition watch_url (id : string) : string :=
  ("https://www.youtube.com/watch?v=" ++ id)%string.

(** ** 4. [GET /api/video-info/:videoId] *)

(** What [Promise.race([infoPromise, timeoutPromise])] settles with: the
    details of the video, a rejection of [ytdl.getInfo], or the 15 s timer. *)
Inductive InfoOutcome :=
| info_resolved (lengthSeconds : JSValue)
| info_rejected (message : string)
| info_timeout.

(** The message of the [TypeError] of a conversion. *)
Definition TypeError_message : string := "Cannot convert object to primitive value".

(** The [catch] block of the handler. *)
Definition video_info_catch (message : string) : Response :=
  if includes message "Video unavailable" then
    {| status := 404; body := json_error "Video not found or is private/restricted" |}
  else if includes message "timeout" then
    {| status := 408; body := json_error "Request timeout - please try again" |}
  else
    {| status := 500; body := json_error "Failed to fetch video information" |}.

Section Handlers.

Variable Number_toString : Q -> string.

#[local] Abbreviation ToString := (ToString Number_toString).
#[local] Abbreviation js_lt := (js_lt Number_toString).
#[local] Abbreviation js_gt := (js_gt Number_toString).

(** The handler, given what the race settles with: the calls it made and the
    response it sent. *)
Definition video_info (videoId : string) (outcome : InfoOutcome)
  : list ExternalCall * Response :=
  if negb (truthy (JString videoId)) || negb (video_id_regex_test videoId) then
    ([], {| status := 400; body := json_error "Invalid video ID format" |})
  else
    let videoUrl := watch_url videoId in
    let calls := [ytdl_getInfo videoUrl] in
    match outcome with
    | info_resolved lengthSeconds =>
        match ToString (js_or lengthSeconds (JNumber 0)) with
        | Some string =>
            let duration := parseInt string in
            if JSNum_lt (Fin 600) duration then
              (calls, {| status := 400;
                         body := json_error
                           "Video too long. Please use videos under 10 minutes." |})
            else
              (calls, {| status := 200; body := json_video_info duration |})
        | None => (calls, video_info_catch TypeError_message)
        end
    | info_rejected message => (calls, video_info_catch message)
    | info_timeout => (calls, video_info_catch "Request timeout")
    end.

(** ** 5. [POST /api/process-audio] *)

(** The fields of [req.body] the handler destructures. *)
Record ProcessAudioBody := {
  videoId : JSValue;
  pitchShift : JSValue;
  playbackSpeed : JSValue
}.

(** Where the handler is: awaiting [downloadYouTubeAudio], awaiting
    [processAudioWithFFmpeg], piping the read stream, waiting for the 5 s
    cleanup timer, finished, stopped by the unhandled ['error'] event of
    the read stream, or left by a [TypeError] thrown before its [try] block.
    In the last case the promise of the handler is rejected; the handler has
    sent nothing and does nothing more, and what becomes of the rejection is
    the framework's business, not the handler's. *)
Inductive Phase :=
  Fetching | Transforming | Streaming | Grace | Done | Crashed | Threw.

(** One request and the part of the world it touches: the names in the temp
    directory, the calls made, the responses sent on [res], [res.headersSent]
    and whether the 25 s [requestTimeout] is pending. *)
Record Request := {
  phase : Phase;
  files : gset string;
  calls : list ExternalCall;
  responses : list Response;
  headersSent : bool;
  requestTimeout : bool
}.

Definition set_phase (p : Phase) (st : Request) : Request :=
  {| phase := p; files := files st; calls := calls st;
     responses := responses st; headersSent := headersSent st;
     requestTimeout := requestTimeout st |}.

(** Sending a response sets [res.headersSent]. *)
Definition send (r : Response) (st : Request) : Request :=
  {| phase := phase st; files := files st; calls := calls st;
     responses := responses st ++ [r]; headersSent := true;
     requestTimeout := requestTimeout st |}.

Definition clearTimeout (st : Request) : Request :=
  {| phase := phase st; files := files st; calls := calls st;
     responses := responses st; headersSent := headersSent st;
     requestTimeout := false |}.

Definition call (c : ExternalCall) (st : Request) : Request :=
  {| phase := phase st; files := files st; calls := calls st ++ [c];
     responses := responses st; headersSent := headersSent st;
     requestTimeout := requestTimeout st |}.

Definition written (file : string) (st : Request) : Request :=
  {| phase := phase st; files := {[file]} ∪ files st; calls := calls st;
     responses := responses st; headersSent := headersSent st;
     requestTimeout := requestTimeout st |}.

(** [if (fs.existsSync(file)) fs.unlink(file, ...)], the unlink taken to
    succeed. *)
Definition unlink_if_exists (file : string) (st : Request) : Request :=
  {| phase := phase st; files := files st ∖ {[file]}; calls := calls st;
     responses := responses st; headersSent := headersSent st;
     requestTimeout := requestTimeout st |}.

Definition inputFile (sessionId : string) : string :=
  (sessionId ++ "_input.webm")%string.
Definition outputFile (sessionId : string) : string :=
  (sessionId ++ "_output.mp3")%string.

(** How the head of the handler can end the request: with a response it
    returns, or with the [TypeError] of a conversion, which is thrown
    outside the [try] block. *)
Inductive Exit :=
| returned (r : Response)
| threw_TypeError.

Definition bad_request (error : string) : Exit :=
  returned {| status := 400; body := json_error error |}.

(** The validation at the head of the handler: how it ends the request, if
    it does.  [RegExp.test] converts the id to a string and the comparisons
    convert their operand to a number. *)
Definition validate (b : ProcessAudioBody) : option Exit :=
  let pitchShift := default_to (JNumber 0) (pitchShift b) in
  let playbackSpeed := default_to (JNumber 1) (playbackSpeed b) in
  if negb (truthy (videoId b)) then Some (bad_request "Invalid video ID") else
  match ToString (videoId b) with
  | None => Some threw_TypeError
  | Some id =>
      if negb (video_id_regex_test id) then Some (bad_request "Invalid video ID") else
      match or_else (js_lt pitchShift (-12)) (js_gt pitchShift 12) with
      | None => Some threw_TypeError
      | Some true => Some (bad_request "Pitch shift must be between -12 and 12")
      | Some false =>
          match or_else (js_lt playbackSpeed (1#4)) (js_gt playbackSpeed 2) with
          | None => Some threw_TypeError
          | Some true => Some (bad_request "Speed must be between 0.25 and 2.0")
          | Some false => None
          end
      end
  end.

(** The same checks as the file [part_000] writes them. *)
Definition validate_part_000 (b : ProcessAudioBody) : option Exit :=
  let pitchShift := default_to (JNumber 0) (pitchShift b) in
  let playbackSpeed := default_to (JNumber 1) (playbackSpeed b) in
  if negb (truthy (videoId b)) then Some (bad_request "Video ID is required") else
  match ToString (videoId b) with
  | None => Some threw_TypeError
  | Some id =>
      if negb (video_id_regex_test id)
      then Some (bad_request "Invalid video ID format") else
      match or_else (js_lt pitchShift (-12)) (js_gt pitchShift 12) with
      | None => Some threw_TypeError
      | Some true =>
          Some (bad_request "Pitch shift must be between -12 and 12 semitones")
      | Some false =>
          match or_else (js_lt playbackSpeed (1#4)) (js_gt playbackSpeed 2) with
          | None => Some threw_TypeError
          | Some true =>
              Some (bad_request "Playback speed must be between 0.25 and 2.0")
          | Some false => None
          end
      end
  end.

(** The request of a handler that threw: nothing was sent, called or
    scheduled. *)
Definition thrown (tempDir : gset string) : Request :=
  {| phase := Threw; files := tempDir; calls := [];
     responses := []; headersSent := false; requestTimeout := false |}.

(** The handler up to its first [await]: a rejected request is answered and
    finished with nothing else done; an accepted one has its session, its
    25 s timer and the download under way.  In between, the template literal
    of the log line converts the three values to strings, and so does
    [downloadYouTubeAudio] with the id, for the URL it hands to [ytdl]. *)
Definition process_audio_start (tempDir : gset string) (b : ProcessAudioBody)
    (sessionId : string) : Request :=
  match validate b with
  | Some (returned r) =>
      {| phase := Done; files := tempDir; calls := [];
         responses := [r]; headersSent := true; requestTimeout := false |}
  | Some threw_TypeError => thrown tempDir
  | None =>
      match ToString (videoId b),
            ToString (default_to (JNumber 0) (pitchShift b)),
            ToString (default_to (JNumber 1) (playbackSpeed b)) with
      | Some id, Some _, Some _ =>
          {| phase := Fetching; files := tempDir;
             calls := [ytdl_download (watch_url id) (inputFile sessionId)];
             responses := []; headersSent := false; requestTimeout := true |}
      | _, _, _ => thrown tempDir
      end
  end.

(** The ways [downloadYouTubeAudio] and [processAudioWithFFmpeg] reject, and
    the messages of their errors. *)
Inductive DownloadError :=
| download_timeout
| audioStream_error (message : string)
| writeStream_error
| download_init_failed (message : string).

Inductive ProcessingError :=
| ffmpeg_error (message : string)
| processing_timeout
| processing_init_failed (message : string).

Definition download_message (e : DownloadError) : string :=
  match e with
  | download_timeout => "Download timeout"
  | audioStream_error message => "Download failed: " ++ message
  | writeStream_error => "File write failed"
  | download_init_failed message => "Download init failed: " ++ message
  end%string.

Definition processing_message (e : ProcessingError) : string :=
  match e with
  | ffmpeg_error message => "Processing failed: " ++ message
  | processing_timeout => "Processing timeout"
  | processing_init_failed message => "Processing init failed: " ++ message
  end%string.

(** What the environment delivers to the handler.  A rejection says whether
    the file the collaborator was writing is on disk. *)
Inductive Event :=
| requestTimeout_fires
| download_resolved
| download_rejected (e : DownloadError) (inputFile_exists : bool)
| processing_resolved
| processing_rejected (e : ProcessingError) (outputFile_exists : bool)
| audioStream_data
| audioStream_end
| audioStream_error_event
| cleanup_timer_fires.

(** The response the [catch] block maps an error to. *)
Definition catch_response (message : string) : Response :=
  if includes message "Video unavailable" then
    {| status := 404; body := json_error "Video not available" |}
  else if includes message "timeout" then
    {| status := 408; body := json_error "Processing timeout" |}
  else
    {| status := 500; body := json_error "Failed to process audio" |}.

(** The [catch] block. *)
Definition process_audio_catch (sessionId message : string) (st : Request)
  : Request :=
  let st := clearTimeout st in
  let st := unlink_if_exists (inputFile sessionId) st in
  let st := unlink_if_exists (outputFile sessionId) st in
  let st := if negb (headersSent st) then send (catch_response message) st else st in
  set_phase Done st.

(** The callback of the 25 s timer. *)
Definition requestTimeout_callback (st : Request) : Request :=
  if negb (headersSent st) then
    send {| status := 408; body := json_error "Processing timeout" |} st
  else st.

(** The first write of the piped stream sends the headers, with status 200. *)
Definition implicit_headers (st : Request) : Request :=
  if negb (headersSent st) then send {| status := 200; body := audio_mpeg |} st
  else st.

(** One event.  An event the handler is not waiting for changes nothing. *)
Definition step (sessionId : string) (b : ProcessAudioBody) (st : Request)
    (ev : Event) : Request :=
  match ev, phase st with
  | requestTimeout_fires, _ =>
      if requestTimeout st then requestTimeout_callback (clearTimeout st) else st
  | download_resolved, Fetching =>
      let st := written (inputFile sessionId) st in
      let st := call (ffmpeg_run (inputFile sessionId) (outputFile sessionId)
                        (default_to (JNumber 0) (pitchShift b))
                        (default_to (JNumber 1) (playbackSpeed b))) st in
      set_phase Transforming st
  | download_rejected e inputFile_exists, Fetching =>
      let st := if inputFile_exists then written (inputFile sessionId) st else st in
      process_audio_catch sessionId (download_message e) st
  | processing_resolved, Transforming =>
      let st := written (outputFile sessionId) st in
      let st := clearTimeout st in
      if headersSent st then
        (* [res.setHeader] throws once the headers are sent *)
        process_audio_catch sessionId
          "Cannot set headers after they are sent to the client" st
      else set_phase Streaming st
  | processing_rejected e outputFile_exists, Transforming =>
      let st := if outputFile_exists then written (outputFile sessionId) st else st in
      process_audio_catch sessionId (processing_message e) st
  | audioStream_data, Streaming => implicit_headers st
  | audioStream_end, Streaming => set_phase Grace (implicit_headers st)
  | audioStream_error_event, Streaming => set_phase Crashed st
  | cleanup_timer_fires, Grace =>
      let st := unlink_if_exists (inputFile sessionId) st in
      let st := unlink_if_exists (outputFile sessionId) st in
      set_phase Done st
  | _, _ => st
  end.

(** What the guard [!res.headersSent] maintains: [res.headersSent] is set
    exactly when one response has been sent. *)
Definition guard_invariant (st : Request) : Prop :=
  length (responses st) = (if headersSent st then 1 else 0)%nat.

(** Neither file of the session is in the temp directory. *)
Definition session_cleaned (sessionId : string) (st : Request) : Prop :=
  (inputFile sessionId ∉ files st) /\ (outputFile sessionId ∉ files st).

(** A request, run against the events the environment delivers. *)
Definition process_audio (tempDir : gset string) (b : ProcessAudioBody)
    (sessionId : string) (events : list Event) : Request :=
  foldl (step sessionId b) (process_audio_start tempDir b sessionId) events.

(** The responses of the deadline and of the piped stream. *)
Definition timeout_response : Response :=
  {| status := 408; body := json_error "Processing timeout" |}.

Definition audio_response : Response := {| status := 200; body := audio_mpeg |}.

(** The two calls an accepted request can make; the id of an accepted
    request converts to a string. *)
Definition download_call (b : ProcessAudioBody) (sessionId : string) : ExternalCall :=
  ytdl_download (watch_url (default ""%string (ToString (videoId b))))
    (inputFile sessionId).

Definition transcode_call (b : ProcessAudioBody) (sessionId : string) : ExternalCall :=
  ffmpeg_run (inputFile sessionId) (outputFile sessionId)
    (default_to (JNumber 0) (pitchShift b)) (default_to (JNumber 1) (playbackSpeed b)).

(** While an adapter is awaited, either the deadline is pending and nothing
    was sent, or it has fired and its 408 is the response. *)
Definition awaiting_adapter (st : Request) : Prop :=
  (requestTimeout st = true /\ headersSent st = false /\ responses st = []) \/
  (requestTimeout st = false /\ headersSent st = true /\
   responses st = [timeout_response]).

(** While the stream is piped the deadline is cleared, and the response is
    the audio once the first chunk was written. *)
Definition piping (st : Request) : Prop :=
  requestTimeout st = false /\
  ((headersSent st = false /\ responses st = []) \/
   (headersSent st = true /\ responses st = [audio_response])).

(** What holds of an accepted request in each phase. *)
Definition phase_table (b : ProcessAudioBody) (sessionId : string) (st : Request)
  : Prop :=
  match phase st with
  | Fetching =>
      calls st = [download_call b sessionId] /\ awaiting_adapter st
  | Transforming =>
      calls st = [download_call b sessionId; transcode_call b sessionId] /\
      inputFile sessionId ∈ files st /\ awaiting_adapter st
  | Streaming | Crashed =>
      calls st = [download_call b sessionId; transcode_call b sessionId] /\
      inputFile sessionId ∈ files st /\ outputFile sessionId ∈ files st /\
      piping st
  | Grace =>
      calls st = [download_call b sessionId; transcode_call b sessionId] /\
      inputFile sessionId ∈ files st /\ outputFile sessionId ∈ files st /\
      requestTimeout st = false /\ headersSent st = true /\
      responses st = [audio_response]
  | Done =>
      requestTimeout st = false /\ headersSent st = true /\
      (inputFile sessionId ∉ files st) /\ (outputFile sessionId ∉ files st) /\
      (calls st = [download_call b sessionId] \/
       calls st = [download_call b sessionId; transcode_call b sessionId]) /\
      exists r, responses st = [r] /\
                ((r = audio_response /\
                  calls st = [download_call b sessionId; transcode_call b sessionId]) \/
                 status r = 404%nat \/ status r = 408%nat \/ status r = 500%nat)
  | Threw => False
  end.


End Handlers.

(** ** 6. The temp-file sweep ([cleanupTempFiles]) *)

(** An entry of the temp directory: the time of its last modification, as
    [fs.statSync] reports it, and whether the entry itself is a directory,
    which [fs.unlinkSync] refuses to remove (a symbolic link is removed,
    wherever it points). *)
Record Stats := { mtime : Z; isDirectory : bool }.

(** The body of [files.forEach]: [statSync] throws on a name that is not
    there and [unlinkSync] throws on a directory; the inner [catch] logs
    either and the sweep goes on. *)
Definition cleanup_file (maxAge now : Z) (dir : gmap string Stats) (file : string)
  : gmap string Stats :=
  match dir !! file with
  | None => dir
  | Some stats =>
      let fileAge := (now - mtime stats)%Z in
      if (maxAge <? fileAge)%Z then
        if isDirectory stats then dir else delete file dir
      else dir
  end.

(** What one run at [now] deletes: a file older than [maxAge]. *)
Definition reaped (maxAge now : Z) (stats : Stats) : bool :=
  (maxAge <? now - mtime stats)%Z && negb (isDirectory stats).

Definition readdirSync (dir : gmap string Stats) : list string :=
  (map_to_list dir).*1.

(** The sweep at clock reading [now]; [None] is a temp directory that does not
    exist. *)
Definition sweep (maxAge now : Z) (tempDir : option (gmap string Stats))
  : option (gmap string Stats) :=
  match tempDir with
  | None => None
  | Some dir => Some (foldl (cleanup_file maxAge now) dir (readdirSync dir))
  end.

(** [server.js] deletes after 15 minutes, [part_000] after 30. *)
Definition cleanupTempFiles : Z -> option (gmap string Stats) -> option (gmap string Stats) :=
  sweep 900000.
Definition cleanupTempFiles_part_000
  : Z -> option (gmap string Stats) -> option (gmap string Stats) :=
  sweep 1800000.

(** ** 7. The cleanup of [gracefulShutdown] *)

(** [files.forEach(file => fs.unlinkSync(path.join(tempDir, file)))] inside
    one [try]: the first [unlinkSync] that throws, on a directory or on a name
    that is gone, ends the loop. *)
Fixpoint unlinkSync_forEach (dir : gmap string Stats) (files : list string)
  : gmap string Stats :=
  match files with
  | [] => dir
  | file :: files' =>
      match dir !! file with
      | Some stats =>
          if isDirectory stats then dir
          else unlinkSync_forEach (delete file dir) files'
      | None => dir
      end
  end.

(** The temp directory as the callback of [server.close] leaves it. *)
Definition gracefulShutdown_cleanup (tempDir : option (gmap string Stats))
  : option (gmap string Stats) :=
  match tempDir with
  | None => None
  | Some dir => Some (unlinkSync_forEach dir (readdirSync dir))
  end.

(** ** 8. [formatDuration] and [formatNumber] *)

Fixpoint zeros (n : nat) : string :=
  match n with O => "" | S n' => String "0" (zeros n') end.

(** [s.padStart(targetLength, '0')] *)
Definition padStart0 (targetLength : nat) (s : string) : string :=
  (zeros (targetLength - String.length s) ++ s)%string.

(** [formatDuration(seconds)] on a whole number of seconds (below 2^52, where
    the quotients of the program are the exact ones): [Math.floor(a / b)] is
    [a / b], and [a % b], which takes the sign of [a], is [Z.rem a b]. *)
Definition formatDuration (seconds : Z) : string :=
  let hrs := (seconds / 3600)%Z in
  let mins := (Z.rem seconds 3600 / 60)%Z in
  let secs := Z.rem seconds 60 in
  if (0 <? hrs)%Z then
    (pretty hrs ++ ":" ++ padStart0 2 (pretty mins) ++ ":"
       ++ padStart0 2 (pretty secs))%string
  else
    (pretty mins ++ ":" ++ padStart0 2 (pretty secs))%string.

Section FormatNumber.

Import PrimFloat FloatOps SpecFloat.

(** Ten times the magnitude [m * 2^e] of a finite binary64 number, rounded to
    the nearest integer, a tie going up: the integer [n] of
    [Number.prototype.toFixed] for one digit. *)
Definition tenths (m : positive) (e : Z) : Z :=
  if (0 <=? e)%Z then (10 * Z.pos m * 2 ^ e)%Z
  else ((2 * 10 * Z.pos m + 2 ^ (- e)) / (2 * 2 ^ (- e)))%Z.

(** [x.toFixed(1)], for a magnitude below 10^21. *)
Definition toFixed1 (x : float) : string :=
  match Prim2SF x with
  | S754_nan => "NaN"
  | S754_infinity false => "Infinity"
  | S754_infinity true => "-Infinity"
  | S754_zero _ => "0.0"
  | S754_finite sign m e =>
      let n := tenths m e in
      ((if sign then "-" else "") ++ pretty (n / 10)%Z ++ "."
         ++ pretty (n mod 10)%Z)
  end%string.

(** [formatNumber(num)] once [parseInt(num)] gave the integer [n] (below
    2^53); the quotient [n / 1000] is the binary64 one. *)
Definition formatNumber (n : Z) : string :=
  let x := of_uint63 (Uint63.of_Z n) in
  if (1000000000 <=? n)%Z then (toFixed1 (x / 1000000000)%float ++ "B")%string
  else if (1000000 <=? n)%Z then (toFixed1 (x / 1000000)%float ++ "M")%string
  else if (1000 <=? n)%Z then (toFixed1 (x / 1000)%float ++ "K")%string
  else pretty n.

End FormatNumber.

(* ===================================================================== *)
(** * Part II. Properties                                                  *)
(* ===================================================================== *)

(** ** 1. The filter planner *)

Lemma Qgtb_true x y : Qgtb x y = true <-> y < x.
Proof.
  unfold Qgtb. rewrite negb_true_iff, <- not_true_iff_false, Qle_bool_iff.
  split; [apply Qnot_le_lt | apply Qlt_not_le].
Qed.

Lemma Qgtb_false x y : Qgtb x y = false <-> ~ y < x.
Proof. rewrite <- Qgtb_true. symmetry. apply not_true_iff_false. Qed.

Lemma Qltb_true x y : Qltb x y = true <-> x < y.
Proof. apply (Qgtb_true y x). Qed.

Lemma Qltb_false x y : Qltb x y = false <-> ~ x < y.
Proof. apply (Qgtb_false y x). Qed.

Lemma Qneqb_true x y : negb (Qeq_bool x y) = true <-> ~ x == y.
Proof.
  rewrite negb_true_iff, <- not_true_iff_false, Qeq_bool_iff. tauto.
Qed.

Lemma Qneqb_false x y : negb (Qeq_bool x y) = false <-> x == y.
Proof. rewrite negb_false_iff. apply Qeq_bool_iff. Qed.

(** The loops only append: what they do to a non-empty [audioFilters] is what
    they do to the empty one, after the filters already there. *)
Definition after (acc : list Filter) (r : list Filter * Q) : list Filter * Q :=
  (acc ++ fst r, snd r).

Lemma while_speed_gt_2_acc fuel : forall acc speed,
  while_speed_gt_2 fuel acc speed = after acc <$> while_speed_gt_2 fuel [] speed.
Proof.
  induction fuel as [|fuel IH]; intros acc speed; simpl;
    destruct (Qgtb speed 2); simpl; trivial;
    try (unfold after; simpl; now rewrite app_nil_r).
  rewrite (IH (acc ++ _)), (IH [atempo 2]).
  destruct (while_speed_gt_2 fuel [] (speed / 2)) as [[l r]|]; simpl; trivial.
  unfold after; simpl. now rewrite <- app_assoc.
Qed.

Lemma while_speed_lt_half_acc fuel : forall acc speed,
  while_speed_lt_half fuel acc speed =
  after acc <$> while_speed_lt_half fuel [] speed.
Proof.
  induction fuel as [|fuel IH]; intros acc speed; simpl;
    destruct (Qltb speed (1#2)); simpl; trivial;
    try (unfold after; simpl; now rewrite app_nil_r).
  rewrite (IH (acc ++ _)), (IH [atempo (1#2)]).
  destruct (while_speed_lt_half fuel [] (speed / (1#2))) as [[l r]|]; simpl; trivial.
  unfold after; simpl. now rewrite <- app_assoc.
Qed.

(** Each loop, run to its exit, is the specification's loop. *)
Lemma while_speed_gt_2_spec fuel : forall speed l r,
  while_speed_gt_2 fuel [] speed = Some (l, r) ->
  exists steps, l = atempo <$> steps /\ spec_halving speed steps r.
Proof.
  induction fuel as [|fuel IH]; intros speed l r; simpl;
    destruct (Qgtb speed 2) eqn:E; try discriminate.
  - intros [= <- <-]. exists []. split; [trivial|].
    constructor. now apply Qgtb_false.
  - rewrite while_speed_gt_2_acc.
    destruct (while_speed_gt_2 fuel [] (speed / 2)) as [[l' r']|] eqn:W;
      [|discriminate].
    intros [= <- <-]. destruct (IH _ _ _ W) as (steps & -> & Hs).
    exists (2 :: steps). split; [reflexivity|].
    constructor; [now apply Qgtb_true | exact Hs].
  - intros [= <- <-]. exists []. split; [trivial|].
    constructor. now apply Qgtb_false.
Qed.

Lemma spec_halving_run speed steps r :
  spec_halving speed steps r ->
  forall fuel, (length steps <= fuel)%nat ->
  while_speed_gt_2 fuel [] speed = Some (atempo <$> steps, r).
Proof.
  induction 1 as [ratio Hn | ratio steps ratio' Hgt _ IH]; intros fuel Hf.
  - apply Qgtb_false in Hn. destruct fuel; simpl; now rewrite Hn.
  - apply Qgtb_true in Hgt. destruct fuel as [|fuel]; simpl in Hf; [lia|].
    simpl. rewrite Hgt, while_speed_gt_2_acc, IH by lia. reflexivity.
Qed.

Lemma while_speed_lt_half_spec fuel : forall speed l r,
  while_speed_lt_half fuel [] speed = Some (l, r) ->
  exists steps, l = atempo <$> steps /\ spec_doubling speed steps r.
Proof.
  induction fuel as [|fuel IH]; intros speed l r; simpl;
    destruct (Qltb speed (1#2)) eqn:E; try discriminate.
  - intros [= <- <-]. exists []. split; [trivial|].
    constructor. now apply Qltb_false.
  - rewrite while_speed_lt_half_acc.
    destruct (while_speed_lt_half fuel [] (speed / (1#2))) as [[l' r']|] eqn:W;
      [|discriminate].
    intros [= <- <-]. destruct (IH _ _ _ W) as (steps & -> & Hs).
    exists ((1#2) :: steps). split; [reflexivity|].
    constructor; [now apply Qltb_true | exact Hs].
  - intros [= <- <-]. exists []. split; [trivial|].
    constructor. now apply Qltb_false.
Qed.

Lemma spec_doubling_run speed steps r :
  spec_doubling speed steps r ->
  forall fuel, (length steps <= fuel)%nat ->
  while_speed_lt_half fuel [] speed = Some (atempo <$> steps, r).
Proof.
  induction 1 as [ratio Hn | ratio steps ratio' Hlt _ IH]; intros fuel Hf.
  - apply Qltb_false in Hn. destruct fuel; simpl; now rewrite Hn.
  - apply Qltb_true in Hlt. destruct fuel as [|fuel]; simpl in Hf; [lia|].
    simpl. rewrite Hlt, while_speed_lt_half_acc, IH by lia. reflexivity.
Qed.

(** What the specification's loops guarantee at their exits. *)
Definition in_atempo_range (q : Q) : Prop := 1#2 <= q /\ q <= 2.

Lemma Qproduct_app l1 l2 : Qproduct (l1 ++ l2) == Qproduct l1 * Qproduct l2.
Proof.
  induction l1 as [|q l1 IH]; simpl; [Lqa.lra|]. rewrite IH. ring.
Qed.

Lemma spec_halving_exit speed steps r :
  spec_halving speed steps r ->
  Forall in_atempo_range steps /\ Qproduct steps * r == speed /\ r <= 2 /\
  (steps = [] -> r = speed) /\ (steps <> [] -> 1 < r).
Proof.
  induction 1 as [ratio Hn | ratio steps ratio' Hgt Hs IH].
  - repeat split; simpl; try (constructor || congruence || Lqa.lra).
  - destruct IH as (Hall & Hprod & Hle & Hnil & Hcons).
    repeat split; simpl; try discriminate; trivial.
    + constructor; [unfold in_atempo_range; Lqa.lra | exact Hall].
    + rewrite <- Qmult_assoc, Hprod. field.
    + intros _. destruct steps as [|q steps].
      * rewrite (Hnil eq_refl).
        assert (ratio / 2 == ratio * (1#2)) by field. Lqa.lra.
      * apply Hcons. discriminate.
Qed.

Lemma spec_doubling_exit speed steps r :
  spec_doubling speed steps r ->
  Forall in_atempo_range steps /\ Qproduct steps * r == speed /\ 1#2 <= r /\
  (steps = [] -> r = speed) /\ (steps <> [] -> r < 1).
Proof.
  induction 1 as [ratio Hn | ratio steps ratio' Hlt Hs IH].
  - repeat split; simpl; try (constructor || congruence || Lqa.lra).
  - destruct IH as (Hall & Hprod & Hle & Hnil & Hcons).
    repeat split; simpl; try discriminate; trivial.
    + constructor; [unfold in_atempo_range; Lqa.lra | exact Hall].
    + rewrite <- Qmult_assoc, Hprod. field.
    + intros _. destruct steps as [|q steps].
      * rewrite (Hnil eq_refl).
        assert (ratio / (1#2) == ratio * 2) by field. Lqa.lra.
      * apply Hcons. discriminate.
Qed.

(** After both loops the running ratio lies in [0.5, 2.0]. *)
Lemma spec_loops_exit speed halves ratio1 doubles ratio2 :
  spec_halving speed halves ratio1 -> spec_doubling ratio1 doubles ratio2 ->
  in_atempo_range ratio2 /\
  Qproduct (halves ++ doubles) * ratio2 == speed /\
  Forall in_atempo_range (halves ++ doubles).
Proof.
  intros H1 H2.
  destruct (spec_halving_exit _ _ _ H1) as (A1 & P1 & L1 & N1 & C1).
  destruct (spec_doubling_exit _ _ _ H2) as (A2 & P2 & L2 & N2 & C2).
  repeat split; trivial.
  - destruct doubles as [|q doubles].
    + now rewrite (N2 eq_refl).
    + assert (ratio2 < 1) by (apply C2; discriminate). Lqa.lra.
  - rewrite Qproduct_app, <- Qmult_assoc, P2. exact P1.
  - apply Forall_app. now split.
Qed.

Lemma spec_tempo_chain_sound speed chain :
  spec_tempo_chain speed chain ->
  Forall in_atempo_range chain /\ Qproduct chain == speed.
Proof.
  intros [[H1 ->] | (Hne & halves & r1 & doubles & r2 & final & Hh & Hd & Hf & ->)].
  - split; [constructor | simpl; now symmetry].
  - destruct (spec_loops_exit _ _ _ _ _ Hh Hd) as (Hr & Hp & Ha).
    rewrite app_assoc. split.
    + apply Forall_app. split; [exact Ha|].
      destruct Hf; repeat constructor; trivial.
    + rewrite Qproduct_app.
      destruct Hf as [ratio ? ? ? | ratio H1]; simpl.
      * rewrite Qmult_1_r. exact Hp.
      * rewrite <- Hp, H1. reflexivity.
Qed.

(** The planner's tempo block computes the specification's chain, for every
    fuel that lets both loops reach their exits. *)
Lemma tempoFilters_spec fuel speed fs :
  tempoFilters fuel [] speed = Some fs ->
  exists chain, fs = atempo <$> chain /\ spec_tempo_chain speed chain.
Proof.
  unfold tempoFilters.
  destruct (negb (Qeq_bool speed 1)) eqn:E.
  - apply Qneqb_true in E.
    destruct (while_speed_gt_2 fuel [] speed) as [[l1 r1]|] eqn:W1; [|discriminate].
    rewrite while_speed_lt_half_acc.
    destruct (while_speed_lt_half fuel [] r1) as [[l2 r2]|] eqn:W2; [|discriminate].
    destruct (while_speed_gt_2_spec _ _ _ _ W1) as (halves & -> & Hh).
    destruct (while_speed_lt_half_spec _ _ _ _ W2) as (doubles & -> & Hd).
    destruct (spec_loops_exit _ _ _ _ _ Hh Hd) as ([Hlo Hhi] & _).
    simpl. destruct (negb (Qeq_bool r2 1)) eqn:E2; intros [= <-].
    + apply Qneqb_true in E2. exists (halves ++ doubles ++ [r2]). split.
      * now rewrite !fmap_app, app_assoc.
      * right. split; [exact E|].
        exists halves, r1, doubles, r2, [r2]. repeat split; trivial.
        now constructor.
    + apply Qneqb_false in E2. exists (halves ++ doubles ++ []). split.
      * now rewrite !fmap_app, app_nil_r.
      * right. split; [exact E|].
        exists halves, r1, doubles, r2, []. repeat split; trivial.
        now constructor.
  - apply Qneqb_false in E. intros [= <-]. exists []. split; [reflexivity|].
    left. now split.
Qed.

Lemma spec_tempo_chain_run speed chain :
  spec_tempo_chain speed chain ->
  forall fuel, (length chain <= fuel)%nat ->
  tempoFilters fuel [] speed = Some (atempo <$> chain).
Proof.
  intros [[H1 ->] | (Hne & halves & r1 & doubles & r2 & final & Hh & Hd & Hf & ->)]
    fuel Hfuel; unfold tempoFilters.
  - apply Qneqb_false in H1. now rewrite H1.
  - apply Qneqb_true in Hne. rewrite Hne.
    rewrite !length_app in Hfuel.
    rewrite (spec_halving_run _ _ _ Hh), while_speed_lt_half_acc,
      (spec_doubling_run _ _ _ Hd) by lia.
    simpl. destruct Hf as [ratio _ _ H1 | ratio H1].
    + apply Qneqb_true in H1. rewrite H1. now rewrite !fmap_app, app_assoc.
    + apply Qneqb_false in H1. rewrite H1. now rewrite !fmap_app, app_nil_r.
Qed.

(** Termination: on a positive speed both loops reach their exits. *)
Lemma pow2_succ n :
  inject_Z (2 ^ Z.of_nat (S n)) == 2 * inject_Z (2 ^ Z.of_nat n).
Proof.
  rewrite Nat2Z.inj_succ, Z.pow_succ_r by lia. now rewrite inject_Z_mult.
Qed.

Lemma halving_terminates n : forall speed,
  speed <= 2 * inject_Z (2 ^ Z.of_nat n) ->
  exists steps r, spec_halving speed steps r /\ (length steps <= n)%nat.
Proof.
  induction n as [|n IH]; intros speed H.
  - exists [], speed. split; [|simpl; lia].
    constructor. change (inject_Z (2 ^ Z.of_nat 0)) with 1 in H. Lqa.lra.
  - destruct (Qlt_le_dec 2 speed) as [Hgt|Hle].
    + destruct (IH (speed / 2)) as (steps & r & Hs & Hl).
      { rewrite pow2_succ in H.
        assert (speed / 2 == speed * (1#2)) by field. Lqa.lra. }
      exists (2 :: steps), r. split; [now constructor | simpl; lia].
    + exists [], speed. split; [|simpl; lia]. constructor. Lqa.lra.
Qed.

Lemma doubling_terminates n : forall speed,
  1#2 <= speed * inject_Z (2 ^ Z.of_nat n) ->
  exists steps r, spec_doubling speed steps r /\ (length steps <= n)%nat.
Proof.
  induction n as [|n IH]; intros speed H.
  - exists [], speed. split; [|simpl; lia].
    constructor. change (inject_Z (2 ^ Z.of_nat 0)) with 1 in H. Lqa.lra.
  - destruct (Qlt_le_dec speed (1#2)) as [Hlt|Hle].
    + destruct (IH (speed / (1#2))) as (steps & r & Hs & Hl).
      { rewrite pow2_succ in H.
        assert (speed / (1#2) * inject_Z (2 ^ Z.of_nat n)
                == speed * (2 * inject_Z (2 ^ Z.of_nat n))) as -> by field.
        exact H. }
      exists ((1#2) :: steps), r. split; [now constructor | simpl; lia].
    + exists [], speed. split; [|simpl; lia]. constructor. Lqa.lra.
Qed.

Lemma speed_le_pow2 speed :
  0 < speed ->
  speed <= 2 * inject_Z (2 ^ Z.of_nat (Pos.to_nat (Pos.size (Z.to_pos (Qnum speed))))).
Proof.
  destruct speed as [n d]. unfold Qlt. simpl. intros Hn.
  destruct n as [|p|p]; try lia. simpl Z.to_pos.
  rewrite positive_nat_Z. pose proof (Pos.size_gt p) as Hp.
  apply Pos2Z.pos_lt_pos in Hp. rewrite Pos2Z.inj_pow in Hp.
  unfold Qle. simpl. pose proof (Pos2Z.is_pos d). nia.
Qed.

Lemma half_le_speed_pow2 speed :
  0 < speed ->
  1#2 <= speed * inject_Z (2 ^ Z.of_nat (Pos.to_nat (Pos.size (Qden speed)))).
Proof.
  destruct speed as [n d]. unfold Qlt. simpl. intros Hn.
  rewrite positive_nat_Z. pose proof (Pos.size_gt d) as Hd.
  apply Pos2Z.pos_lt_pos in Hd. rewrite Pos2Z.inj_pow in Hd.
  unfold Qle. simpl. rewrite Pos.mul_1_r. nia.
Qed.

Lemma tempo_terminates speed :
  0 < speed ->
  exists chain, spec_tempo_chain speed chain /\ (length chain <= tempo_fuel speed)%nat.
Proof.
  intros Hpos. unfold tempo_fuel.
  pose proof (Pos2Nat.is_pos (Pos.size (Z.to_pos (Qnum speed)))) as Hn1.
  pose proof (Pos2Nat.is_pos (Pos.size (Qden speed))) as Hd1.
  destruct (Qeq_dec speed 1) as [E|E].
  { exists []. split; [left; now split | simpl; lia]. }
  destruct (halving_terminates _ speed (speed_le_pow2 speed Hpos))
    as (halves & r1 & Hh & Hlh).
  destruct (spec_halving_exit _ _ _ Hh) as (_ & _ & Hle & Hnil & Hcons).
  destruct halves as [|h halves].
  - pose proof (Hnil eq_refl) as ->.
    destruct (doubling_terminates _ speed (half_le_speed_pow2 speed Hpos))
      as (doubles & r2 & Hd & Hld).
    destruct (spec_loops_exit _ _ _ _ _ Hh Hd) as ([Hlo Hhi] & _).
    destruct (Qeq_dec r2 1) as [E2|E2].
    + exists ([] ++ doubles ++ []). split.
      * right. split; [exact E|].
        exists [], speed, doubles, r2, []. repeat split; trivial.
        now constructor.
      * rewrite app_nil_r. simpl. lia.
    + exists ([] ++ doubles ++ [r2]). split.
      * right. split; [exact E|].
        exists [], speed, doubles, r2, [r2]. repeat split; trivial.
        now constructor.
      * simpl. rewrite length_app. simpl. lia.
  - assert (1 < r1) as Hr1 by (apply Hcons; discriminate).
    exists ((h :: halves) ++ [] ++ [r1]). split.
    + right. split; [exact E|].
      exists (h :: halves), r1, [], r1, [r1]. repeat split; trivial.
      * constructor. Lqa.lra.
      * constructor; Lqa.lra.
    + rewrite length_app. simpl in *. lia.
Qed.

(** A speed that is zero or negative never leaves the second loop: doubling
    it keeps it below 0.5. *)
Lemma while_speed_lt_half_diverges fuel : forall acc speed,
  speed <= 0 -> while_speed_lt_half fuel acc speed = None.
Proof.
  induction fuel as [|fuel IH]; intros acc speed H; simpl;
    assert (Qltb speed (1#2) = true) as -> by (apply Qltb_true; Lqa.lra);
    trivial.
  apply IH. assert (speed / (1#2) == speed * 2) by field. Lqa.lra.
Qed.

(** X3. On a speed that is zero or negative the tempo block does not
    terminate: no amount of fuel makes it return. *)
Lemma tempoFilters_diverges fuel acc speed :
  speed <= 0 -> tempoFilters fuel acc speed = None.
Proof.
  intros H. unfold tempoFilters.
  assert (negb (Qeq_bool speed 1) = true) as -> by (apply Qneqb_true; Lqa.lra).
  assert (while_speed_gt_2 fuel acc speed = Some (acc, speed)) as ->.
  { destruct fuel; simpl;
      assert (Qgtb speed 2 = false) as -> by (apply Qgtb_false; Lqa.lra); trivial. }
  now rewrite while_speed_lt_half_diverges.
Qed.

Lemma tempoFilters_diverges_witness : tempoFilters 10 [] 0 = None.
Proof. apply (tempoFilters_diverges 10 [] 0). discriminate. Defined.

(** The tempo block appends to what the pitch block left. *)
Lemma tempoFilters_acc fuel acc speed :
  tempoFilters fuel acc speed = app acc <$> tempoFilters fuel [] speed.
Proof.
  unfold tempoFilters. destruct (negb (Qeq_bool speed 1)); simpl;
    [|now rewrite app_nil_r].
  rewrite while_speed_gt_2_acc.
  destruct (while_speed_gt_2 fuel [] speed) as [[l1 r1]|]; simpl; trivial.
  rewrite (while_speed_lt_half_acc fuel (acc ++ l1)),
    (while_speed_lt_half_acc fuel l1).
  destruct (while_speed_lt_half fuel [] r1) as [[l2 r2]|]; simpl; trivial.
  destruct (negb (Qeq_bool r2 1)); simpl; now rewrite <- !app_assoc.
Qed.

Lemma tempoFilters_total fuel acc speed :
  0 < speed -> (tempo_fuel speed <= fuel)%nat ->
  exists chain,
    tempoFilters fuel acc speed = Some (acc ++ (atempo <$> chain)) /\
    spec_tempo_chain speed chain.
Proof.
  intros Hpos Hfuel. destruct (tempo_terminates speed Hpos) as (chain & Hc & Hl).
  exists chain. split; [|exact Hc].
  rewrite tempoFilters_acc, (spec_tempo_chain_run _ _ Hc) by lia. reflexivity.
Qed.

Lemma atempo_factors_app l1 l2 :
  atempo_factors (l1 ++ l2) = atempo_factors l1 ++ atempo_factors l2.
Proof.
  induction l1 as [|[? ? ?|q] l1 IH]; simpl; trivial. now rewrite IH.
Qed.

Lemma atempo_factors_fmap chain : atempo_factors (atempo <$> chain) = chain.
Proof.
  induction chain as [|q chain IH]; [trivial|]. rewrite fmap_cons. simpl.
  now rewrite IH.
Qed.

Lemma atempo_factors_pitch pitchShift : atempo_factors (pitchFilters [] pitchShift) = [].
Proof. unfold pitchFilters. now destruct (negb _). Qed.

Lemma forallb_is_atempo chain : forallb is_atempo (atempo <$> chain) = true.
Proof. induction chain as [|q chain IH]; [trivial|]. now rewrite fmap_cons. Qed.

Lemma filter_is_pitch chain : List.filter is_pitch (atempo <$> chain) = [].
Proof. induction chain as [|q chain IH]; [trivial|]. now rewrite fmap_cons. Qed.

(** C1. The tempo decomposition of the planner is the algorithm of the
    specification: whatever the planner returns is a chain the specification's
    loops produce (halve while the ratio is above 2, double while it is below
    0.5, then one final step at the remaining ratio), every chain of the
    specification is returned by the planner once the fuel covers its length,
    and on a positive speed the planner does return.  In particular 3.0 gives
    [x2, x1.5] and 0.2 gives [x0.5, x0.5, x0.8]. *)
Theorem tempo_decomposition_follows_spec :
  (forall fuel speed fs,
      tempoFilters fuel [] speed = Some fs ->
      exists chain, fs = atempo <$> chain /\ spec_tempo_chain speed chain) /\
  (forall speed chain,
      spec_tempo_chain speed chain ->
      forall fuel, (length chain <= fuel)%nat ->
      tempoFilters fuel [] speed = Some (atempo <$> chain)) /\
  (forall speed fuel,
      0 < speed -> (tempo_fuel speed <= fuel)%nat ->
      exists chain, tempoFilters fuel [] speed = Some (atempo <$> chain)) /\
  audioFilters (tempo_fuel 3) 0 3 = Some [atempo 2; atempo (3#2)] /\
  audioFilters (tempo_fuel (1#5)) 0 (1#5)
    = Some [atempo (1#2); atempo (1#2); atempo (4#5)].
Proof.
  split; [exact tempoFilters_spec|].
  split; [exact spec_tempo_chain_run|].
  split; [|split; reflexivity].
  intros speed fuel Hpos Hfuel.
  destruct (tempoFilters_total fuel [] speed Hpos Hfuel) as (chain & H & _).
  now exists chain.
Qed.

(** C9. On a positive speed the planner returns, every [atempo] factor of the
    returned chain lies in [0.5, 2.0], and the factors multiply to the
    requested speed. *)
Theorem atempo_factors_product (pitchShift playbackSpeed : Q) (fuel : nat) :
  0 < playbackSpeed -> (tempo_fuel playbackSpeed <= fuel)%nat ->
  exists fs,
    audioFilters fuel pitchShift playbackSpeed = Some fs /\
    Forall in_atempo_range (atempo_factors fs) /\
    Qproduct (atempo_factors fs) == playbackSpeed.
Proof.
  intros Hpos Hfuel. unfold audioFilters.
  destruct (tempoFilters_total fuel (pitchFilters [] pitchShift) _ Hpos Hfuel)
    as (chain & -> & Hc).
  eexists. split; [reflexivity|].
  rewrite atempo_factors_app, atempo_factors_pitch, atempo_factors_fmap.
  exact (spec_tempo_chain_sound _ _ Hc).
Qed.

Lemma atempo_factors_product_witness :
  exists fs,
    audioFilters 4 (-3) (1#5) = Some fs /\
    Forall in_atempo_range (atempo_factors fs) /\
    Qproduct (atempo_factors fs) == 1#5.
Proof.
  apply (atempo_factors_product (-3) (1#5) 4); [reflexivity | vm_compute; lia].
Defined.

(** C5. For a pitch shift other than 0 the chain the planner returns starts
    with the one pitch filter, which sets the sample rate to
    44100 * 2^(pitchShift/12) and resamples to 44100, and everything after it
    is a tempo step; the planner returns whenever the speed is positive, and a
    shift of 12 semitones gives the ratio 2. *)
Theorem pitch_filter_precedes_tempo (pitchShift playbackSpeed : Q) :
  ~ pitchShift == 0 ->
  let pitch := asetrate_aresample 44100 (Math_pow 2 (pitchShift / 12)) 44100 in
  asetrate_value pitch = Some (44100 * Rpower 2 (Q2R pitchShift / 12))%R /\
  aresample_value pitch = Some 44100%Z /\
  (pitchShift == 12 -> asetrate_value pitch = Some (44100 * 2)%R) /\
  (forall fuel fs,
      audioFilters fuel pitchShift playbackSpeed = Some fs ->
      exists tempo,
        fs = pitch :: tempo /\ forallb is_atempo tempo = true /\
        List.filter is_pitch fs = [pitch]) /\
  (0 < playbackSpeed ->
   forall fuel, (tempo_fuel playbackSpeed <= fuel)%nat ->
   exists tempo, audioFilters fuel pitchShift playbackSpeed = Some (pitch :: tempo)).
Proof.
  intros Hp pitch.
  assert (Q2R 2 = 2%R) as H2 by (unfold Q2R; simpl; Lra.lra).
  assert (Q2R (pitchShift / 12) = (Q2R pitchShift / 12)%R) as H12.
  { rewrite Q2R_div by discriminate.
    replace (Q2R 12) with 12%R by (unfold Q2R; simpl; Lra.lra). reflexivity. }
  assert (pitchFilters [] pitchShift = [pitch]) as Hpf.
  { unfold pitchFilters. apply Qneqb_true in Hp. now rewrite Hp. }
  split; [|split; [|split; [|split]]].
  - unfold pitch, asetrate_value, pow_value. simpl. now rewrite H2, H12.
  - reflexivity.
  - intros E. unfold pitch, asetrate_value, pow_value. simpl.
    rewrite H2, H12, (Qeq_eqR _ _ E).
    replace (Q2R 12 / 12)%R with 1%R by (unfold Q2R; simpl; Lra.lra).
    rewrite Rpower_1 by Lra.lra. reflexivity.
  - intros fuel fs. unfold audioFilters. rewrite tempoFilters_acc, Hpf.
    destruct (tempoFilters fuel [] playbackSpeed) as [l|] eqn:T; [|discriminate].
    intros [= <-]. destruct (tempoFilters_spec _ _ _ T) as (chain & -> & _).
    exists (atempo <$> chain). split; [reflexivity|].
    split; [apply forallb_is_atempo|].
    simpl. now rewrite filter_is_pitch.
  - intros Hpos fuel Hfuel. unfold audioFilters. rewrite Hpf.
    destruct (tempoFilters_total fuel [pitch] _ Hpos Hfuel) as (chain & -> & _).
    now exists (atempo <$> chain).
Qed.

Lemma pitch_filter_precedes_tempo_witness :
  exists tempo,
    audioFilters 4 12 (3#2)
    = Some (asetrate_aresample 44100 (Math_pow 2 (12 / 12)) 44100 :: tempo).
Proof.
  refine (proj2 (proj2 (proj2 (proj2
    (pitch_filter_precedes_tempo 12 (3#2) _)))) _ 4%nat _).
  - discriminate.
  - reflexivity.
  - vm_compute; lia.
Defined.

(** On the speeds the validation accepts no loop runs more than once. *)
Lemma tempoFilters_accepted speed :
  1#4 <= speed -> speed <= 2 ->
  tempoFilters 1 [] speed =
  Some (if Qeq_bool speed 1 then []
        else if Qle_bool (1#2) speed then [atempo speed]
        else [atempo (1#2); atempo (speed / (1#2))]).
Proof.
  intros Hlo Hhi. unfold tempoFilters.
  destruct (Qeq_bool speed 1) eqn:E1; simpl; [reflexivity|].
  assert (Qgtb speed 2 = false) as -> by (apply Qgtb_false; Lqa.lra).
  unfold Qltb at 1.
  destruct (Qle_bool (1#2) speed) eqn:E2; simpl.
  - rewrite E1. reflexivity.
  - assert (~ 1#2 <= speed) as Hlt.
    { intros H. apply Qle_bool_iff in H. congruence. }
    assert (speed / (1#2) == speed * 2) as Hd by field.
    assert (Qltb (speed / (1#2)) (1#2) = false) as ->.
    { apply Qltb_false. rewrite Hd. Lqa.lra. }
    simpl.
    assert (negb (Qeq_bool (speed / (1#2)) 1) = true) as ->.
    { apply Qneqb_true. rewrite Hd. Lqa.lra. }
    reflexivity.
Qed.

(** X4. For a speed in [0.25, 2.0] the planner returns with a single unit of
    fuel, so neither loop iterates twice and the halving loop not at all: the
    chain is the pitch filter, if any, followed by nothing when the speed is
    1, by the one step at the speed when it is at least 0.5, and by a x0.5
    step and a step at twice the speed otherwise. *)
Theorem audioFilters_accepted_range (pitchShift speed : Q) :
  1#4 <= speed -> speed <= 2 ->
  audioFilters 1 pitchShift speed =
  Some (pitchFilters [] pitchShift ++
        (if Qeq_bool speed 1 then []
         else if Qle_bool (1#2) speed then [atempo speed]
         else [atempo (1#2); atempo (speed / (1#2))])).
Proof.
  intros Hlo Hhi. unfold audioFilters.
  rewrite tempoFilters_acc, tempoFilters_accepted by trivial. reflexivity.
Qed.

Lemma audioFilters_accepted_range_witness :
  audioFilters 1 (-2) (3#10) =
  Some [asetrate_aresample 44100 (Math_pow 2 (-2 / 12)) 44100;
        atempo (1#2); atempo ((3#10) / (1#2))].
Proof. apply (audioFilters_accepted_range (-2) (3#10)); discriminate. Defined.

Lemma spec_tempo_chain_nil speed : spec_tempo_chain speed [] -> speed == 1.
Proof.
  intros [[H _] | (Hne & halves & r1 & doubles & r2 & final & Hh & Hd & Hf & E)];
    [exact H|].
  symmetry in E. apply app_eq_nil in E as [-> E]. apply app_eq_nil in E as [-> ->].
  destruct (spec_halving_exit _ _ _ Hh) as (_ & _ & _ & N1 & _).
  destruct (spec_doubling_exit _ _ _ Hd) as (_ & _ & _ & N2 & _).
  rewrite (N1 eq_refl) in N2. rewrite (N2 eq_refl) in Hf.
  inversion Hf. assumption.
Qed.

(** X5. The planner returns the empty chain, the pass-through re-encode,
    exactly when the pitch shift is 0 and the speed is 1. *)
Theorem audioFilters_empty_iff (fuel : nat) (pitchShift speed : Q) :
  audioFilters fuel pitchShift speed = Some [] <-> pitchShift == 0 /\ speed == 1.
Proof.
  unfold audioFilters. rewrite tempoFilters_acc. split.
  - destruct (tempoFilters fuel [] speed) as [l|] eqn:T; [|discriminate].
    simpl. intros [= E]. apply app_eq_nil in E as [Hp ->].
    destruct (tempoFilters_spec _ _ _ T) as (chain & Hc & Hs).
    symmetry in Hc. apply fmap_nil_inv in Hc. subst chain.
    split; [|now apply spec_tempo_chain_nil].
    unfold pitchFilters in Hp.
    destruct (negb (Qeq_bool pitchShift 0)) eqn:E; [discriminate|].
    now apply Qneqb_false.
  - intros [Hp Hs]. unfold tempoFilters, pitchFilters.
    apply Qneqb_false in Hp, Hs. now rewrite Hp, Hs.
Qed.

Section Binary64Runs.

Import PrimFloat.
#[local] Set Warnings "-inexact-float".

(** [Number_value] rounds as the hardware does: the division of binary64 is
    correctly rounded, and on every quotient [n / d] of two integers up to
    40 it gives the double that [Number_value] computes; so do the literals
    below. *)
Example Number_value_binary64 :
  forallb (fun n =>
             forallb (fun d =>
                        same_number
                          (Number_value (Qmake (Z.of_nat n) (Pos.of_nat d)))
                          (binary64_value (of_uint63 (Uint63.of_Z (Z.of_nat n))
                                           / of_uint63 (Uint63.of_Z (Z.of_nat d)))))
                     (seq 1 40))
          (seq 0 41) = true /\
  same_number (StringToNumber "0.30000000000000004") (binary64_value (0.1 + 0.2)) = true /\
  same_number (StringToNumber "1e23") (binary64_value 1e23) = true /\
  same_number (StringToNumber "-2.2250738585072011e-308")
    (binary64_value (-2.2250738585072011e-308)) = true /\
  same_number (StringToNumber "1e400") (binary64_value infinity) = true.
Proof. repeat split; vm_compute; reflexivity. Qed.

(** The two chains of the specification, on binary64: the factors are the
    doubles nearest to 2, 1.5, 0.5 and 0.8. *)
Example binary64_tempo_3 :
  Binary64.tempoFilters 4 3%float = Some [2; 1.5]%float.
Proof. reflexivity. Qed.

Example binary64_tempo_02 :
  Binary64.tempoFilters 4 0.2%float = Some [0.5; 0.5; 0.8]%float.
Proof. reflexivity. Qed.

(** The bounds of the accepted range, and a speed of 0, which never leaves
    the second loop. *)
Example binary64_tempo_bounds :
  Binary64.tempoFilters 4 0.25%float = Some [0.5; 0.5]%float /\
  Binary64.tempoFilters 4 2%float = Some [2]%float /\
  Binary64.tempoFilters 4 1%float = Some [] /\
  Binary64.tempoFilters 1000 0%float = None.
Proof. repeat split; reflexivity. Qed.

End Binary64Runs.

Example tempo_3 :
  tempoFilters 5 [] 3 = Some [atempo 2; atempo (3#2)].
Proof. reflexivity. Qed.

Example tempo_02 :
  tempoFilters 5 [] (1#5) = Some [atempo (1#2); atempo (1#2); atempo (4#5)].
Proof. reflexivity. Qed.

(** ** 2. Validation of a request *)

Section HandlerProperties.

Variable Number_toString : Q -> string.

#[local] Abbreviation ToString := (ToString Number_toString).
#[local] Abbreviation ToNumber := (ToNumber Number_toString).
#[local] Abbreviation js_lt := (js_lt Number_toString).
#[local] Abbreviation js_gt := (js_gt Number_toString).
#[local] Abbreviation outside_range := (outside_range Number_toString).
#[local] Abbreviation inside_range := (inside_range Number_toString).
#[local] Abbreviation validate := (validate Number_toString).
#[local] Abbreviation validate_part_000 := (validate_part_000 Number_toString).
#[local] Abbreviation video_info := (video_info Number_toString).
#[local] Abbreviation process_audio_start := (process_audio_start Number_toString).
#[local] Abbreviation process_audio := (process_audio Number_toString).

(** A primitive value converts without throwing, and a value converts to a
    number exactly when it converts to a string. *)
Lemma ToNumber_ToString v : is_Some (ToNumber v) <-> is_Some (ToString v).
Proof.
  destruct v as [| |[]| | |elements|properties];
    try solve [split; intros _; simpl; eauto]; apply fmap_is_Some.
Qed.

(** The range check [v < lo || v > hi] compares the number the value converts
    to and throws when the conversion does; it fires exactly on the values
    outside the range. *)
Lemma range_check v lo hi :
  or_else (js_lt v lo) (js_gt v hi) =
  (fun n => JSNum_lt n (Fin lo) || JSNum_lt (Fin hi) n) <$> ToNumber v.
Proof.
  unfold js_lt, js_gt. destruct (ToNumber v) as [n|]; simpl; [|reflexivity].
  destruct (JSNum_lt n (Fin lo)); reflexivity.
Qed.

Lemma range_check_true v lo hi :
  or_else (js_lt v lo) (js_gt v hi) = Some true <-> outside_range v lo hi.
Proof.
  rewrite range_check. unfold outside_range.
  destruct (ToNumber v) as [[|q| |]|]; simpl;
    try (split; [discriminate | tauto]); try tauto.
  rewrite <- !Qltb_true, <- orb_true_iff. split; [now intros [= ->] | now intros ->].
Qed.

Lemma range_check_false v lo hi :
  or_else (js_lt v lo) (js_gt v hi) = Some false <->
  ToNumber v = Some NaN \/ inside_range v lo hi.
Proof.
  rewrite range_check. unfold inside_range.
  destruct (ToNumber v) as [[|q| |]|]; simpl.
  - tauto.
  - split.
    + intros [= H]. apply orb_false_iff in H as [H1 H2].
      apply Qltb_false in H1, H2. right. split; now apply Qnot_lt_le.
    + intros [H|[H1 H2]]; [discriminate|]. f_equal. apply orb_false_iff.
      split; apply Qltb_false; now apply Qle_not_lt.
  - split; [discriminate | intros [H|[]]; discriminate].
  - split; [discriminate | intros [H|[]]; discriminate].
  - split; [discriminate | intros [H|[]]; discriminate].
Qed.

Lemma range_check_throws v lo hi :
  or_else (js_lt v lo) (js_gt v hi) = None <-> ToNumber v = None.
Proof.
  rewrite range_check. destruct (ToNumber v); simpl; split; (discriminate || trivial).
Qed.

Lemma outside_range_default d v lo hi :
  outside_range v lo hi -> default_to d v = v.
Proof. destruct v; simpl; trivial. intros []. Qed.

(** A value outside the range converts to a number and does not pass the
    check. *)
Lemma outside_range_passes v lo hi :
  outside_range v lo hi -> ToNumber v = Some NaN \/ inside_range v lo hi -> False.
Proof.
  unfold outside_range, inside_range.
  destruct (ToNumber v) as [[|q| |]|]; intros H [H'|H'];
    try discriminate; try contradiction.
  destruct H as [H|H], H' as [H1 H2];
    [apply (Qlt_not_le _ _ H H1) | apply (Qlt_not_le _ _ H H2)].
Qed.

Lemma outside_range_converts v lo hi : outside_range v lo hi -> ToNumber v <> None.
Proof. unfold outside_range. now destruct (ToNumber v). Qed.

(** A value that passes a range check has been converted. *)
Lemma passes_converts v lo hi :
  ToNumber v = Some NaN \/ inside_range v lo hi -> is_Some (ToString v).
Proof.
  intros H. apply ToNumber_ToString. unfold inside_range in H.
  destruct (ToNumber v); [eauto|]. destruct H as [H|H]; [discriminate | contradiction].
Qed.

(** Every response of the validation is a 400. *)
Lemma validate_status b r : validate b = Some (returned r) -> status r = 400%nat.
Proof.
  unfold validate, bad_request.
  repeat match goal with
         | |- context [match ?c with _ => _ end] => destruct c
         end; intros [= <-]; reflexivity.
Qed.

Lemma validate_part_000_status b r :
  validate_part_000 b = Some (returned r) -> status r = 400%nat.
Proof.
  unfold validate_part_000, bad_request.
  repeat match goal with
         | |- context [match ?c with _ => _ end] => destruct c
         end; intros [= <-]; reflexivity.
Qed.

(** What the validation lets through. *)
Lemma validate_None b :
  validate b = None <->
  truthy (videoId b) = true /\
  (exists id, ToString (videoId b) = Some id /\ video_id_regex_test id = true) /\
  (let pitch := default_to (JNumber 0) (pitchShift b) in
   ToNumber pitch = Some NaN \/ inside_range pitch (-12) 12) /\
  (let speed := default_to (JNumber 1) (playbackSpeed b) in
   ToNumber speed = Some NaN \/ inside_range speed (1#4) 2).
Proof.
  unfold validate. cbv zeta. rewrite <- !range_check_false.
  destruct (truthy (videoId b)); simpl;
    [|split; [discriminate | intros (? & _); discriminate]].
  destruct (ToString (videoId b)) as [id|];
    [|split; [discriminate | intros (_ & (? & ? & _) & _); discriminate]].
  destruct (video_id_regex_test id) eqn:Hid; simpl;
    [|split; [discriminate | intros (_ & (? & [= <-] & ?) & _); congruence]].
  destruct (or_else _ _) as [[]|];
    try (split; [discriminate | intros (_ & _ & ? & _); discriminate]).
  destruct (or_else _ _) as [[]|];
    try (split; [discriminate | intros (_ & _ & _ & ?); discriminate]).
  split; [eauto 6 | trivial].
Qed.

(** Both files run the same checks. *)
Lemma validate_part_000_None b : validate_part_000 b = None <-> validate b = None.
Proof.
  unfold validate_part_000, validate.
  repeat match goal with
         | |- context [match ?c with _ => _ end] => destruct c
         end; split; (discriminate || trivial).
Qed.

(** ** 3. The run of a request *)

(** A finished request whose timer is not pending ignores every event. *)
Lemma finished_step sessionId b st ev :
  phase st = Done \/ phase st = Crashed \/ phase st = Threw ->
  requestTimeout st = false ->
  step sessionId b st ev = st.
Proof.
  intros Hp Ht. unfold step. rewrite Ht.
  destruct Hp as [-> | [-> | ->]]; destruct ev; reflexivity.
Qed.

Lemma finished_run sessionId b events : forall st,
  phase st = Done \/ phase st = Crashed \/ phase st = Threw ->
  requestTimeout st = false ->
  foldl (step sessionId b) st events = st.
Proof.
  induction events as [|ev events IH]; intros st Hp Ht; simpl; [trivial|].
  rewrite finished_step by trivial. now apply IH.
Qed.

(** A rejected request: its 400 is the one response, and nothing else
    happened. *)
Lemma rejected_run tempDir b sessionId events r :
  validate b = Some (returned r) ->
  process_audio tempDir b sessionId events =
  {| phase := Done; files := tempDir; calls := []; responses := [r];
     headersSent := true; requestTimeout := false |}.
Proof.
  intros H. unfold process_audio, process_audio_start.
  rewrite H. apply finished_run; simpl; auto.
Qed.

(** A request whose validation threw: nothing happened, and nothing will. *)
Lemma thrown_run tempDir b sessionId events :
  validate b = Some threw_TypeError ->
  process_audio tempDir b sessionId events = thrown tempDir.
Proof.
  intros H. unfold process_audio, process_audio_start.
  rewrite H. apply finished_run; simpl; auto.
Qed.

(** The validation throws when the conversion of the id does, and when that
    of the pitch shift does behind a well-formed id. *)
Lemma validate_id_throws b :
  ToString (videoId b) = None -> validate b = Some threw_TypeError.
Proof.
  intros Hid. unfold validate. cbv zeta. rewrite Hid.
  destruct (videoId b) as [| |[]| | | |]; try discriminate; reflexivity.
Qed.

Lemma validate_pitch_throws b id :
  truthy (videoId b) = true ->
  ToString (videoId b) = Some id -> video_id_regex_test id = true ->
  ToNumber (pitchShift b) = None ->
  validate b = Some threw_TypeError.
Proof.
  intros Ht Hid Hre Hp. unfold validate. cbv zeta.
  rewrite Ht, Hid, Hre. simpl.
  assert (default_to (JNumber 0) (pitchShift b) = pitchShift b) as ->
      by (destruct (pitchShift b); (discriminate || reflexivity)).
  unfold or_else, js_lt. now rewrite Hp.
Qed.

(** An accepted request starts its download: the conversions of the log line
    and of the URL return, since the validation has made them already. *)
Lemma accepted_start tempDir b sessionId :
  validate b = None ->
  process_audio_start tempDir b sessionId =
  {| phase := Fetching; files := tempDir;
     calls := [download_call Number_toString b sessionId];
     responses := []; headersSent := false; requestTimeout := true |}.
Proof.
  intros Hv. unfold process_audio_start, download_call. rewrite Hv.
  apply validate_None in Hv as (_ & (id & Hid & _) & Hp & Hs). cbv zeta in Hp, Hs.
  rewrite Hid.
  destruct (passes_converts _ _ _ Hp) as [p ->].
  destruct (passes_converts _ _ _ Hs) as [q ->].
  reflexivity.
Qed.

(** [res.headersSent] tells whether a response was sent, and there is never a
    second one: every action of the handler keeps [guard_invariant]. *)
Lemma guard_set_phase p st : guard_invariant st -> guard_invariant (set_phase p st).
Proof. intros H. exact H. Qed.

Lemma guard_clearTimeout st : guard_invariant st -> guard_invariant (clearTimeout st).
Proof. intros H. exact H. Qed.

Lemma guard_call c st : guard_invariant st -> guard_invariant (call c st).
Proof. intros H. exact H. Qed.

Lemma guard_written file st : guard_invariant st -> guard_invariant (written file st).
Proof. intros H. exact H. Qed.

Lemma guard_unlink_if_exists file st :
  guard_invariant st -> guard_invariant (unlink_if_exists file st).
Proof. intros H. exact H. Qed.

Lemma guard_send r st :
  headersSent st = false -> guard_invariant st -> guard_invariant (send r st).
Proof.
  unfold guard_invariant, send. simpl. intros -> H.
  rewrite length_app, H. reflexivity.
Qed.

Lemma guard_send_if_not_sent r st :
  guard_invariant st ->
  guard_invariant (if negb (headersSent st) then send r st else st).
Proof.
  intros H. destruct (headersSent st) eqn:E; simpl; [exact H|].
  now apply guard_send.
Qed.

Lemma guard_requestTimeout_callback st :
  guard_invariant st -> guard_invariant (requestTimeout_callback st).
Proof. apply guard_send_if_not_sent. Qed.

Lemma guard_implicit_headers st :
  guard_invariant st -> guard_invariant (implicit_headers st).
Proof. apply guard_send_if_not_sent. Qed.

Lemma guard_process_audio_catch sessionId message st :
  guard_invariant st -> guard_invariant (process_audio_catch sessionId message st).
Proof.
  intros H. unfold process_audio_catch. cbv zeta.
  apply guard_set_phase, guard_send_if_not_sent, guard_unlink_if_exists,
    guard_unlink_if_exists, guard_clearTimeout, H.
Qed.

Create HintDb guard.
#[local] Hint Resolve guard_set_phase guard_clearTimeout guard_call guard_written
  guard_unlink_if_exists guard_requestTimeout_callback guard_implicit_headers
  guard_process_audio_catch : guard.

Lemma step_guard sessionId b st ev :
  guard_invariant st -> guard_invariant (step sessionId b st ev).
Proof.
  intros H. unfold step.
  destruct ev, (phase st); cbv zeta;
    repeat match goal with
           | |- context [if ?c then _ else _] => destruct c
           end;
    auto 10 with guard.
Qed.

Lemma start_guard tempDir b sessionId :
  guard_invariant (process_audio_start tempDir b sessionId).
Proof.
  unfold process_audio_start.
  repeat match goal with
         | |- context [match ?c with _ => _ end] => destruct c
         end; reflexivity.
Qed.

Lemma run_guard sessionId b events : forall st,
  guard_invariant st -> guard_invariant (foldl (step sessionId b) st events).
Proof.
  induction events as [|ev events IH]; intros st H; simpl; [trivial|].
  apply IH. now apply step_guard.
Qed.

(** Once the handler has reached [Done], neither file of the session is in
    the temp directory: the [catch] block and the cleanup timer unlink both. *)
Lemma phase_requestTimeout_callback st :
  phase (requestTimeout_callback st) = phase st.
Proof. unfold requestTimeout_callback. now destruct (negb _). Qed.

Lemma files_requestTimeout_callback st :
  files (requestTimeout_callback st) = files st.
Proof. unfold requestTimeout_callback. now destruct (negb _). Qed.

Lemma phase_implicit_headers st : phase (implicit_headers st) = phase st.
Proof. unfold implicit_headers. now destruct (negb _). Qed.

Lemma catch_cleaned sessionId message st :
  session_cleaned sessionId (process_audio_catch sessionId message st).
Proof.
  unfold process_audio_catch, session_cleaned. cbv zeta.
  destruct (negb _); cbn [files set_phase send unlink_if_exists clearTimeout];
    set_solver.
Qed.

Lemma step_done_cleaned sessionId b st ev :
  (phase st = Done -> session_cleaned sessionId st) ->
  phase (step sessionId b st ev) = Done ->
  session_cleaned sessionId (step sessionId b st ev).
Proof.
  intros H. unfold step.
  destruct ev, (phase st) eqn:P; cbv zeta;
    repeat match goal with
           | |- context [if ?c then _ else _] => destruct c
           end;
    intros Hd;
    rewrite ?phase_requestTimeout_callback, ?phase_implicit_headers in Hd;
    cbn [phase set_phase clearTimeout call written unlink_if_exists] in Hd;
    first
      [ congruence
      | apply catch_cleaned
      | unfold session_cleaned in *;
        rewrite ?files_requestTimeout_callback;
        cbn [files set_phase unlink_if_exists clearTimeout] in *;
        first [ apply H; reflexivity | set_solver ] ].
Qed.

Lemma run_done_cleaned sessionId b events : forall st,
  (phase st = Done -> session_cleaned sessionId st) ->
  let st' := foldl (step sessionId b) st events in
  phase st' = Done -> session_cleaned sessionId st'.
Proof.
  induction events as [|ev events IH]; intros st H; simpl; [exact H|].
  apply IH. now apply step_done_cleaned.
Qed.

(** X1. An accepted request that has reached [Done], through the [catch]
    block or through the 5 s cleanup timer after the end of the stream, has
    left neither of its two files in the temp directory. *)
Lemma accepted_done_cleaned tempDir b sessionId events :
  validate b = None ->
  let st := process_audio tempDir b sessionId events in
  phase st = Done -> session_cleaned sessionId st.
Proof.
  intros Hv. unfold process_audio. rewrite (accepted_start _ _ _ Hv).
  apply run_done_cleaned. discriminate.
Qed.

(** C4. The claim fails on the code.  The comparison [pitchShift < -12]
    converts the pitch shift to a number, outside the [try] block: when the
    conversion throws, the handler ends with that [TypeError] before it has
    looked at the speed, and no 400 is sent, whatever the speed is and
    whatever happens afterwards. *)
Theorem pitch_conversion_throws tempDir b sessionId events id :
  truthy (videoId b) = true ->
  ToString (videoId b) = Some id -> video_id_regex_test id = true ->
  ToNumber (pitchShift b) = None ->
  process_audio tempDir b sessionId events = thrown tempDir.
Proof.
  intros Ht Hid Hre Hp. apply thrown_run.
  now apply (validate_pitch_throws b id).
Qed.

(** X20. A request whose pitch shift is outside [-12, 12] or whose speed is
    outside [0.25, 2.0] creates no temp file and makes no call to a
    collaborator, whatever happens afterwards; and when its id converts to a
    string and its pitch shift to a number, as every string, number,
    boolean, [null] and missing value does, it gets the status 400 and
    nothing else. *)
Theorem out_of_range_rejected tempDir b sessionId events :
  outside_range (pitchShift b) (-12) 12 \/
  outside_range (playbackSpeed b) (1#4) 2 ->
  let st := process_audio tempDir b sessionId events in
  files st = tempDir /\ calls st = [] /\
  (is_Some (ToString (videoId b)) -> is_Some (ToNumber (pitchShift b)) ->
   List.map status (responses st) = [400%nat]).
Proof.
  intros H st.
  destruct (validate b) as [[r|]|] eqn:Hv.
  - subst st. rewrite (rejected_run _ _ _ _ _ Hv). simpl.
    now rewrite (validate_status _ _ Hv).
  - subst st. rewrite (thrown_run _ _ _ _ Hv). simpl.
    split; [reflexivity|]. split; [reflexivity|]. intros [id Hid] [p Hp].
    exfalso. revert Hv. unfold validate. cbv zeta. rewrite Hid.
    destruct (negb (truthy _)); [discriminate|].
    destruct (negb (video_id_regex_test id)); [discriminate|].
    destruct (or_else _ _) as [[]|] eqn:E1; [discriminate| |].
    + destruct (or_else _ (js_gt _ 2)) as [[]|] eqn:E2; try discriminate.
      intros _. apply range_check_false in E1. apply range_check_throws in E2.
      destruct H as [H|H].
      * rewrite (outside_range_default (JNumber 0) _ _ _ H) in E1.
        exact (outside_range_passes _ _ _ H E1).
      * rewrite (outside_range_default (JNumber 1) _ _ _ H) in E2.
        exact (outside_range_converts _ _ _ H E2).
    + intros _. apply range_check_throws in E1.
      destruct (pitchShift b); simpl in Hp, E1; congruence.
  - exfalso. apply validate_None in Hv as (_ & _ & Hp & Hs). cbv zeta in Hp, Hs.
    destruct H as [H|H].
    + rewrite (outside_range_default (JNumber 0) _ _ _ H) in Hp.
      exact (outside_range_passes _ _ _ H Hp).
    + rewrite (outside_range_default (JNumber 1) _ _ _ H) in Hs.
      exact (outside_range_passes _ _ _ H Hs).
Qed.

(** C6. However the timer, the two adapters and the stream interleave, a
    request never has more than one response; and when the expiry of the 25 s
    deadline does send one, no response had been sent before and the one sent
    is the timeout status 408. *)
Theorem at_most_one_response tempDir b sessionId events :
  let st := process_audio tempDir b sessionId events in
  let st' := step sessionId b st requestTimeout_fires in
  (length (responses st) <= 1)%nat /\
  (length (responses st') <= 1)%nat /\
  (responses st' <> responses st ->
   headersSent st = false /\ responses st = [] /\
   responses st' = [{| status := 408; body := json_error "Processing timeout" |}]).
Proof.
  intros st st'.
  assert (guard_invariant st) as Hst by apply run_guard, start_guard.
  pose proof (step_guard sessionId b st requestTimeout_fires Hst) as Hst'.
  fold st' in Hst'. unfold guard_invariant in Hst, Hst'.
  split; [destruct (headersSent st); lia|].
  split; [destruct (headersSent st'); lia|].
  subst st'. clear Hst'. revert Hst. generalize st. clear st.
  intros [ph fs cs rs hs rt]. unfold step, requestTimeout_callback.
  destruct rt, hs; cbn; intros Hlen Hne;
    try (exfalso; apply Hne; reflexivity).
  destruct rs; [auto | discriminate].
Qed.

(** C7. The claim fails on the code.  The pattern test of the audio endpoint
    converts the id to a string, outside the [try] block: an id whose
    conversion throws (an object with a key [toString] of its own, or an
    array that holds one) matches no pattern, and the handler ends with that
    [TypeError]: no 400 is sent, whatever happens afterwards. *)
Theorem id_conversion_throws tempDir b sessionId events :
  ToString (videoId b) = None ->
  process_audio tempDir b sessionId events = thrown tempDir.
Proof.
  intros Hid. apply thrown_run. now apply validate_id_throws.
Qed.

(** X21. An id that does not match the pattern of eleven characters gets a
    400 from the video information endpoint with no call made.  For the audio
    endpoint the id is a value of the body, which the pattern test converts
    to a string: an id that converts to no matching string causes no call and
    no temp file, and when it does convert to a string the request gets the
    400 as its one response. *)
Theorem invalid_id_rejected :
  (forall id outcome,
      video_id_regex_test id = false ->
      video_info id outcome =
      ([], {| status := 400; body := json_error "Invalid video ID format" |})) /\
  (forall tempDir b sessionId events,
      (forall id, ToString (videoId b) = Some id -> video_id_regex_test id = false) ->
      let st := process_audio tempDir b sessionId events in
      calls st = [] /\ files st = tempDir /\
      (is_Some (ToString (videoId b)) ->
       responses st = [{| status := 400; body := json_error "Invalid video ID" |}])).
Proof.
  split.
  - intros id outcome H. unfold video_info. rewrite H.
    now rewrite orb_true_r.
  - intros tempDir b sessionId events H st.
    destruct (ToString (videoId b)) as [id|] eqn:Hid.
    + assert (validate b = Some (bad_request "Invalid video ID")) as Hv.
      { unfold validate. cbv zeta. rewrite Hid, (H id eq_refl).
        now destruct (negb (truthy _)). }
      subst st. now rewrite (rejected_run _ _ _ _ _ Hv).
    + subst st. rewrite (thrown_run _ _ _ _ (validate_id_throws b Hid)).
      repeat split. intros [? [=]].
Qed.

(** C10. The range checks let a value that is no number through: when the id
    is well formed and each of the pitch shift and the speed is either inside
    its range or converts to [NaN], the comparisons of a [NaN] value are all
    false, both files' validations respond nothing, and the handler goes on
    to its session and the download. *)
Theorem non_numeric_passes_validation tempDir b sessionId id :
  let pitch := default_to (JNumber 0) (pitchShift b) in
  let speed := default_to (JNumber 1) (playbackSpeed b) in
  truthy (videoId b) = true ->
  ToString (videoId b) = Some id ->
  video_id_regex_test id = true ->
  ToNumber pitch = Some NaN \/ inside_range pitch (-12) 12 ->
  ToNumber speed = Some NaN \/ inside_range speed (1#4) 2 ->
  (ToNumber pitch = Some NaN ->
   js_lt pitch (-12) = Some false /\ js_gt pitch 12 = Some false) /\
  (ToNumber speed = Some NaN ->
   js_lt speed (1#4) = Some false /\ js_gt speed 2 = Some false) /\
  validate b = None /\ validate_part_000 b = None /\
  process_audio_start tempDir b sessionId =
  {| phase := Fetching; files := tempDir;
     calls := [ytdl_download (watch_url id) (inputFile sessionId)];
     responses := []; headersSent := false; requestTimeout := true |}.
Proof.
  intros pitch speed Ht Hid Hre Hp Hs.
  assert (validate b = None) as Hv.
  { apply validate_None. repeat split; eauto. }
  split; [|split; [|split; [exact Hv | split]]].
  - intros E. unfold js_lt, js_gt. now rewrite E.
  - intros E. unfold js_lt, js_gt. now rewrite E.
  - now apply validate_part_000_None.
  - rewrite (accepted_start _ _ _ Hv). unfold download_call. now rewrite Hid.
Qed.

(** C2 (as amended). When the id is well formed and the lookup resolves with
    a duration above 600 seconds, the endpoint responds 400, and it does so
    after the one call that told it the duration.  The duration is what
    [parseInt] reads in the string of [lengthSeconds]. *)
Theorem video_too_long_rejected id lengthSeconds string :
  video_id_regex_test id = true ->
  ToString (js_or lengthSeconds (JNumber 0)) = Some string ->
  JSNum_lt (Fin 600) (parseInt string) = true ->
  video_info id (info_resolved lengthSeconds) =
  ([ytdl_getInfo (watch_url id)],
   {| status := 400;
      body := json_error "Video too long. Please use videos under 10 minutes." |}).
Proof.
  intros Hid Hstr Hlong. unfold video_info. rewrite Hid, Hstr, Hlong.
  assert (truthy (JString id) = true) as ->; [|reflexivity].
  destruct id; [discriminate | reflexivity].
Qed.

(** ** 4. The phases of an accepted request *)

#[local] Abbreviation download_call := (download_call Number_toString).
#[local] Abbreviation phase_table := (phase_table Number_toString).

Lemma catch_response_status message :
  status (catch_response message) = 404%nat \/
  status (catch_response message) = 408%nat \/
  status (catch_response message) = 500%nat.
Proof.
  unfold catch_response. repeat (destruct (includes _ _)); simpl; auto.
Qed.

Lemma video_info_catch_status message :
  status (video_info_catch message) = 404%nat \/
  status (video_info_catch message) = 408%nat \/
  status (video_info_catch message) = 500%nat.
Proof.
  unfold video_info_catch. repeat (destruct (includes _ _)); simpl; auto.
Qed.

(** Computes the state after one event, in one place of the goal. *)
Ltac run_step :=
  match goal with
  | |- context [step ?sid ?b ?st ?ev] =>
      let st' := fresh "st'" in
      let E := fresh "E" in
      remember (step sid b st ev) as st' eqn:E;
      unfold step, process_audio_catch, requestTimeout_callback, implicit_headers,
        set_phase, send, clearTimeout, call, written, unlink_if_exists in E;
      cbn [phase files calls responses headersSent requestTimeout negb app] in E;
      subst st'
  end.

Ltac table_goal :=
  repeat match goal with
  | H : exists r, _ |- _ => destruct H as (? & ? & ?); simplify_eq
  | |- _ /\ _ => split
  | |- _ ∈ _ => set_solver
  | |- _ ∉ _ => set_solver
  | |- _ = _ => reflexivity
  | |- exists r, _ = [r] /\ _ => eexists; split; [reflexivity|]
  | |- _ \/ status (catch_response ?m) = _ \/ _ =>
      right; exact (catch_response_status m)
  | |- _ \/ _ => assumption
  | |- _ \/ _ => first [left; solve [table_goal] | right; solve [table_goal]]
  end.

Lemma step_phase_table b sessionId st ev :
  phase_table b sessionId st -> phase_table b sessionId (step sessionId b st ev).
Proof.
  destruct st as [ph fs cs rs hs rt]. intros H.
  destruct ev as [| |e ex| |e ex| | | |], ph; try exact H;
    unfold phase_table, awaiting_adapter, piping in H;
    cbn [phase files calls responses headersSent requestTimeout] in H;
    destruct_and?; destruct_or?; destruct_and?; simplify_eq;
    try (destruct ex); run_step;
    unfold phase_table, awaiting_adapter, piping;
    cbn [phase files calls responses headersSent requestTimeout];
    table_goal.
Qed.

Lemma run_phase_table b sessionId events : forall st,
  phase_table b sessionId st ->
  phase_table b sessionId (foldl (step sessionId b) st events).
Proof.
  induction events as [|ev events IH]; intros st H; simpl; [exact H|].
  apply IH. now apply step_phase_table.
Qed.

Lemma accepted_phase_table tempDir b sessionId events :
  validate b = None ->
  phase_table b sessionId (process_audio tempDir b sessionId events).
Proof.
  intros Hv. unfold process_audio. rewrite (accepted_start _ _ _ Hv).
  apply run_phase_table. unfold phase_table, awaiting_adapter. simpl. auto.
Qed.

(** X7. An accepted request never retries: the download is started once, the
    transcoder at most once and only after the download has resolved, and no
    other call to a collaborator is made, whatever the events. *)
Theorem no_retries tempDir b sessionId events :
  validate b = None ->
  let st := process_audio tempDir b sessionId events in
  (calls st = [download_call b sessionId] \/
   calls st = [download_call b sessionId; transcode_call b sessionId]) /\
  (phase st = Fetching -> calls st = [download_call b sessionId]) /\
  (calls st = [download_call b sessionId] -> phase st = Fetching \/ phase st = Done).
Proof.
  intros Hv st. pose proof (accepted_phase_table tempDir b sessionId events Hv) as H.
  fold st in H. unfold phase_table in H.
  destruct (phase st); try contradiction; destruct_and?; repeat split; auto; try discriminate;
    try (intros E; congruence).
Qed.

(** X8. An accepted request that has finished was answered exactly once, with
    200, 404, 408 or 500 (never with 400). *)
Theorem finished_request_answered tempDir b sessionId events :
  validate b = None ->
  let st := process_audio tempDir b sessionId events in
  phase st = Done ->
  exists r, responses st = [r] /\
            (status r = 200%nat \/ status r = 404%nat \/
             status r = 408%nat \/ status r = 500%nat).
Proof.
  intros Hv st Hd. pose proof (accepted_phase_table tempDir b sessionId events Hv) as H.
  fold st in H. unfold phase_table in H. rewrite Hd in H.
  destruct H as (_ & _ & _ & _ & _ & r & Hr & Hs). exists r. split; [exact Hr|].
  destruct Hs as [[-> _]|Hs]; [left; reflexivity | right; exact Hs].
Qed.

(** X9. The audio is sent only when the download and the transcoder were both
    run and the deadline was cleared before it fired or answered: if the 200
    response is among the responses it is the only one, both calls were made,
    and the timer is not pending. *)
Theorem audio_only_after_both_adapters tempDir b sessionId events :
  validate b = None ->
  let st := process_audio tempDir b sessionId events in
  audio_response ∈ responses st ->
  responses st = [audio_response] /\
  calls st = [download_call b sessionId; transcode_call b sessionId] /\
  requestTimeout st = false.
Proof.
  intros Hv st Hin. pose proof (accepted_phase_table tempDir b sessionId events Hv) as H.
  fold st in H. unfold phase_table, awaiting_adapter, piping in H.
  destruct (phase st); try contradiction; destruct_and?; destruct_or?; destruct_and?;
    repeat match goal with
           | H : exists r, _ |- _ => destruct H as (? & ? & ?)
           | H : responses st = _ |- _ => rewrite H in Hin |- *
           end;
    destruct_or?; destruct_and?; simplify_eq;
    try (apply elem_of_nil in Hin; contradiction);
    try (apply list_elem_of_singleton in Hin; simplify_eq);
    auto.
Qed.

(** X10. Whenever the read stream of an accepted request has emitted
    ['error'], after whatever events, both files of the session are in the temp
    directory, and no later event changes anything: nothing of the request
    will delete them. *)
Theorem stream_error_keeps_files tempDir b sessionId events :
  validate b = None ->
  let st := process_audio tempDir b sessionId events in
  phase st = Crashed ->
  inputFile sessionId ∈ files st /\ outputFile sessionId ∈ files st /\
  forall more, foldl (step sessionId b) st more = st.
Proof.
  intros Hv st Hc. pose proof (accepted_phase_table tempDir b sessionId events Hv) as H.
  fold st in H. unfold phase_table, piping in H. rewrite Hc in H.
  destruct H as (_ & Hi & Ho & Ht & _). repeat split; trivial.
  intros more. apply finished_run; auto.
Qed.

(** X11. The request does not delete a file it still needs: the input file is
    there while the transcoder runs, and both files are there while the
    output is streamed and during the 5 s that follow its end. *)
Theorem files_present_while_needed tempDir b sessionId events :
  validate b = None ->
  let st := process_audio tempDir b sessionId events in
  (phase st = Transforming -> inputFile sessionId ∈ files st) /\
  (phase st = Streaming \/ phase st = Grace ->
   inputFile sessionId ∈ files st /\ outputFile sessionId ∈ files st).
Proof.
  intros Hv st. pose proof (accepted_phase_table tempDir b sessionId events Hv) as H.
  fold st in H. unfold phase_table in H.
  destruct (phase st); try contradiction; destruct_and?; split; try discriminate; auto;
    intros [?|?]; try discriminate; auto.
Qed.

Lemma step_sent_final sessionId b st ev :
  headersSent st = true ->
  responses (step sessionId b st ev) = responses st /\
  headersSent (step sessionId b st ev) = true.
Proof.
  destruct st as [ph fs cs rs hs rt]. cbn [headersSent responses]. intros ->.
  destruct ev as [| |e ex| |e ex| | | |], ph, rt; try (destruct ex); run_step;
    cbn [responses headersSent]; split; reflexivity.
Qed.

Lemma run_sent_final sessionId b events : forall st,
  headersSent st = true ->
  responses (foldl (step sessionId b) st events) = responses st.
Proof.
  induction events as [|ev events IH]; intros st H; simpl; [reflexivity|].
  destruct (step_sent_final sessionId b st ev H) as [Hr Hh].
  rewrite IH by exact Hh. exact Hr.
Qed.

(** X12. The first response is final: once a request, accepted or not, has a
    response, no later event adds to it or replaces it. *)
Theorem first_response_is_final tempDir b sessionId events more :
  responses (process_audio tempDir b sessionId events) <> [] ->
  responses (process_audio tempDir b sessionId (events ++ more))
  = responses (process_audio tempDir b sessionId events).
Proof.
  intros Hne. unfold process_audio in *. rewrite foldl_app.
  apply run_sent_final.
  pose proof (run_guard sessionId b events _ (start_guard tempDir b sessionId)) as Hg.
  unfold guard_invariant in Hg.
  destruct (headersSent _); [reflexivity|].
  destruct (responses _); [contradiction | discriminate].
Qed.

(** X13. The deadline does not stop the pipeline.  When it fires during the
    download the client gets the 408, yet the transcoder is still started
    when the download resolves; when the transcoder then succeeds its output
    is discarded, the request ends with the 408 as its only response, and
    both files are deleted at once, without the 5 s delay. *)
Theorem late_success_is_discarded tempDir b sessionId more :
  validate b = None ->
  let st := process_audio tempDir b sessionId
              ([requestTimeout_fires; download_resolved; processing_resolved]
                 ++ more) in
  phase st = Done /\ responses st = [timeout_response] /\
  calls st = [download_call b sessionId; transcode_call b sessionId] /\
  files st = tempDir ∖ {[inputFile sessionId]} ∖ {[outputFile sessionId]}.
Proof.
  intros Hv. unfold process_audio. rewrite (accepted_start _ _ _ Hv).
  rewrite foldl_app. rewrite finished_run; [|left; reflexivity|reflexivity].
  repeat split. cbn. set_solver.
Qed.

(** X14. A failure of an adapter, whenever it comes, ends an accepted
    request, and the [catch] block answers it unless the deadline has
    answered already.  While the download is awaited, after whatever events,
    its rejection finishes the request with one response: the one the [catch]
    block maps the adapter's message to when nothing was sent yet, and the
    408 of the deadline when it has fired; the same holds of the transcoder.
    The status is read off the collaborator's own message: the prefixes the
    adapters add never change the class, so a message that contains 'Video
    unavailable' gives 404 and one that contains 'timeout' gives 408 also
    when it comes from the transcoder, and only the rest gives 500. *)
Theorem adapter_failure_status tempDir b sessionId events :
  validate b = None ->
  let st := process_audio tempDir b sessionId events in
  (forall e inputFile_exists,
      phase st = Fetching ->
      let st' := step sessionId b st (download_rejected e inputFile_exists) in
      phase st' = Done /\
      responses st' = (if headersSent st then [timeout_response]
                       else [catch_response (download_message e)]) /\
      calls st' = [download_call b sessionId]) /\
  (forall e outputFile_exists,
      phase st = Transforming ->
      let st' := step sessionId b st (processing_rejected e outputFile_exists) in
      phase st' = Done /\
      responses st' = (if headersSent st then [timeout_response]
                       else [catch_response (processing_message e)]) /\
      calls st' = [download_call b sessionId; transcode_call b sessionId]) /\
  (forall e,
      status (catch_response (download_message e)) =
      match e with
      | download_timeout => 408%nat
      | writeStream_error => 500%nat
      | audioStream_error message | download_init_failed message =>
          status (catch_response message)
      end) /\
  (forall e,
      status (catch_response (processing_message e)) =
      match e with
      | processing_timeout => 408%nat
      | ffmpeg_error message | processing_init_failed message =>
          status (catch_response message)
      end).
Proof.
  intros Hv st. pose proof (accepted_phase_table tempDir b sessionId events Hv) as H.
  fold st in H. clearbody st. destruct st as [ph fs cs rs hs rt].
  unfold phase_table, awaiting_adapter in H.
  cbn [phase files calls responses headersSent requestTimeout] in *.
  split; [|split; [|split]].
  - intros e ex ->. destruct_and?; destruct_or?; destruct_and?; simplify_eq;
      destruct ex; run_step; cbn; repeat split.
  - intros e ex ->. destruct_and?; destruct_or?; destruct_and?; simplify_eq;
      destruct ex; run_step; cbn; repeat split.
  - intros []; reflexivity.
  - intros []; reflexivity.
Qed.

(** X15. The calls and the success of the video information endpoint.  An id
    that fails the pattern is answered 400 with no call; a well-formed id
    costs exactly one call, the lookup of that video, and is answered 200
    exactly when the lookup resolves and the parsed duration is not above 600,
    so also when the duration is missing or is no number; when the 15 s timer
    wins the race the answer is 408.  The duration is what [parseInt] reads
    in the string of [lengthSeconds]. *)
Theorem video_info_calls id outcome :
  let result := video_info id outcome in
  (video_id_regex_test id = false ->
   fst result = [] /\ status (snd result) = 400%nat) /\
  (video_id_regex_test id = true ->
   fst result = [ytdl_getInfo (watch_url id)] /\
   (status (snd result) = 200%nat <->
    exists lengthSeconds string,
      outcome = info_resolved lengthSeconds /\
      ToString (js_or lengthSeconds (JNumber 0)) = Some string /\
      JSNum_lt (Fin 600) (parseInt string) = false) /\
   (outcome = info_timeout -> status (snd result) = 408%nat)).
Proof.
  unfold video_info. split; intros Hid; rewrite Hid.
  - rewrite orb_true_r. simpl. auto.
  - assert (truthy (JString id) = true) as ->
        by (destruct id; [discriminate | reflexivity]).
    cbn [negb orb]. cbv zeta. destruct outcome as [ls|message|].
    + destruct (ToString (js_or ls (JNumber 0))) as [str|] eqn:Hs.
      * destruct (JSNum_lt (Fin 600) (parseInt str)) eqn:E; cbn [fst snd status];
          (split; [reflexivity|]); (split; [|discriminate]).
        -- split; [discriminate|]. intros (ls' & str' & [= <-] & H & H').
           congruence.
        -- split; [eauto | reflexivity].
      * cbn [fst snd]. split; [reflexivity|]. split; [|discriminate].
        split; [discriminate|]. intros (ls' & str' & [= <-] & H & _). congruence.
    + cbn [fst snd]. split; [reflexivity|]. split; [|discriminate].
      split; [|intros (? & ? & ? & _); discriminate].
      destruct (video_info_catch_status message) as [H|[H|H]]; rewrite H; discriminate.
    + cbn [fst snd]. split; [reflexivity|]. split; [|reflexivity].
      split; [discriminate | intros (? & ? & ? & _); discriminate].
Qed.

(** X6. The validation guards the planner: when a request with a numeric
    pitch shift and a numeric speed is accepted, the shift is in [-12, 12],
    the speed in [0.25, 2.0], and the planner returns on them, with at most
    three filters. *)
Theorem accepted_request_filters b (p s : Q) :
  validate b = None ->
  pitchShift b = JNumber p -> playbackSpeed b = JNumber s ->
  (-12 <= p /\ p <= 12) /\ (1#4 <= s /\ s <= 2) /\
  exists fs, audioFilters 1 p s = Some fs /\ (length fs <= 3)%nat.
Proof.
  intros Hv Hp Hs. apply validate_None in Hv as (_ & _ & Hpr & Hsr).
  rewrite Hp in Hpr. rewrite Hs in Hsr.
  assert (-12 <= p /\ p <= 12) as Hpb
      by (destruct Hpr as [Hpr|Hpr]; [discriminate | exact Hpr]).
  assert (1#4 <= s /\ s <= 2) as Hsb
      by (destruct Hsr as [Hsr|Hsr]; [discriminate | exact Hsr]).
  split; [exact Hpb|]. split; [exact Hsb|].
  unfold audioFilters. rewrite tempoFilters_acc.
  rewrite tempoFilters_accepted by tauto.
  eexists. split; [reflexivity|].
  rewrite length_app. unfold pitchFilters.
  destruct (negb (Qeq_bool p 0)), (Qeq_bool s 1), (Qle_bool (1#2) s); simpl; lia.
Qed.

End HandlerProperties.

Lemma out_of_range_rejected_witness :
  let st :=
    process_audio Number_toString_integers ∅
      {| videoId := JString "dQw4w9WgXcQ"; pitchShift := JString "12.000000000000001";
         playbackSpeed := JUndefined |}
      "session" [requestTimeout_fires; download_resolved] in
  files st = ∅ /\ calls st = [] /\ List.map status (responses st) = [400%nat].
Proof.
  destruct (out_of_range_rejected Number_toString_integers ∅
              {| videoId := JString "dQw4w9WgXcQ";
                 pitchShift := JString "12.000000000000001";
                 playbackSpeed := JUndefined |}
              "session" [requestTimeout_fires; download_resolved])
    as (Hfiles & Hcalls & Hstatus).
  - left. vm_compute. right. reflexivity.
  - split; [exact Hfiles|]. split; [exact Hcalls|].
    apply Hstatus; eexists; reflexivity.
Defined.

Lemma pitch_conversion_throws_witness :
  let b := {| videoId := JString "dQw4w9WgXcQ";
              pitchShift := JObject [("toString"%string, JNumber 1)];
              playbackSpeed := JNumber 3 |} in
  outside_range Number_toString_integers (playbackSpeed b) (1#4) 2 /\
  process_audio Number_toString_integers ∅ b "session" [requestTimeout_fires]
  = thrown ∅.
Proof.
  split; [right; reflexivity|].
  apply (pitch_conversion_throws Number_toString_integers ∅
           {| videoId := JString "dQw4w9WgXcQ";
              pitchShift := JObject [("toString"%string, JNumber 1)];
              playbackSpeed := JNumber 3 |}
           "session" [requestTimeout_fires] "dQw4w9WgXcQ"); reflexivity.
Defined.

Lemma id_conversion_throws_witness :
  process_audio Number_toString_integers ∅
    {| videoId := JObject [("toString"%string, JNumber 1)];
       pitchShift := JUndefined; playbackSpeed := JUndefined |}
    "session" [requestTimeout_fires]
  = thrown ∅.
Proof.
  apply (id_conversion_throws Number_toString_integers ∅
           {| videoId := JObject [("toString"%string, JNumber 1)];
              pitchShift := JUndefined; playbackSpeed := JUndefined |}
           "session" [requestTimeout_fires]).
  reflexivity.
Defined.

(** An id that is too short is answered 400; an id that is a number of
    eleven digits, or an array of one well-formed id, passes the pattern
    test, which sees its string. *)
Example process_audio_ids :
  responses
    (process_audio Number_toString_integers ∅
       {| videoId := JString "too-short"; pitchShift := JUndefined;
          playbackSpeed := JUndefined |} "session" [])
  = [{| status := 400; body := json_error "Invalid video ID" |}] /\
  validate Number_toString_integers
    {| videoId := JNumber 12345678901; pitchShift := JUndefined;
       playbackSpeed := JUndefined |} = None /\
  calls
    (process_audio Number_toString_integers ∅
       {| videoId := JArray [JString "dQw4w9WgXcQ"]; pitchShift := JUndefined;
          playbackSpeed := JUndefined |} "session" [])
  = [ytdl_download "https://www.youtube.com/watch?v=dQw4w9WgXcQ"
       "session_input.webm"].
Proof. repeat split; vm_compute; reflexivity. Qed.

(** The literal of a string is rounded to the nearest double before it is
    compared: a pitch shift that is 12 on binary64 is accepted, and the next
    double above 12 is rejected. *)
Example rounding_at_the_bound :
  ToNumber Number_toString_integers (JString "12.0000000000000001") = Some (Fin 12) /\
  validate Number_toString_integers
    {| videoId := JString "dQw4w9WgXcQ"; pitchShift := JString "12.0000000000000001";
       playbackSpeed := JString "0.25000000000000001" |} = None /\
  validate Number_toString_integers
    {| videoId := JString "dQw4w9WgXcQ"; pitchShift := JString "12.000000000000001";
       playbackSpeed := JUndefined |}
  = Some (bad_request "Pitch shift must be between -12 and 12").
Proof. repeat split; vm_compute; reflexivity. Qed.

Example Number_value_examples :
  Number_value (1 # 10) = Fin (3602879701896397 # 36028797018963968) /\
  StringToNumber "1e309" = PosInfinity /\
  StringToNumber "-1.7976931348623159e308" = NegInfinity /\
  StringToNumber "1.7976931348623157e308"
  = Fin (inject_Z ((2 ^ 53 - 1) * 2 ^ 971)) /\
  StringToNumber "2e-324" = Fin 0 /\
  StringToNumber "3e-324" = Fin (1 # Z.to_pos (2 ^ 1074)) /\
  StringToNumber "9007199254740993" = Fin 9007199254740992 /\
  StringToNumber " 0x1F " = Fin 31 /\
  StringToNumber "12px" = NaN.
Proof. repeat split; vm_compute; reflexivity. Qed.

(** The conversions that throw, and those that do not. *)
Example conversions_of_objects :
  ToString Number_toString_integers (JObject [("toString"%string, JNull)]) = None /\
  ToNumber Number_toString_integers
    (JArray [JObject [("toString"%string, JNumber 1)]]) = None /\
  ToString Number_toString_integers (JObject [("valueOf"%string, JNumber 1)])
  = Some "[object Object]"%string /\
  ToString Number_toString_integers (JArray [JNull; JArray [JString "a"]; JBool true])
  = Some ",a,true"%string /\
  ToNumber Number_toString_integers (JArray [JString "13"]) = Some (Fin 13) /\
  ToNumber Number_toString_integers (JArray []) = Some (Fin 0).
Proof. repeat split; vm_compute; reflexivity. Qed.

(** An out-of-range speed behind a pitch shift whose conversion throws is not
    reached either. *)
Example pitch_throws_before_speed :
  validate Number_toString_integers
    {| videoId := JString "dQw4w9WgXcQ";
       pitchShift := JObject [("toString"%string, JNumber 1)];
       playbackSpeed := JNumber 3 |} = Some threw_TypeError.
Proof. reflexivity. Qed.

Lemma non_numeric_passes_validation_witness :
  let b := {| videoId := JString "dQw4w9WgXcQ"; pitchShift := JString "high";
              playbackSpeed := JString "fast" |} in
  (ToNumber Number_toString_integers (JString "high") = Some NaN ->
   js_lt Number_toString_integers (JString "high") (-12) = Some false /\
   js_gt Number_toString_integers (JString "high") 12 = Some false) /\
  (ToNumber Number_toString_integers (JString "fast") = Some NaN ->
   js_lt Number_toString_integers (JString "fast") (1#4) = Some false /\
   js_gt Number_toString_integers (JString "fast") 2 = Some false) /\
  validate Number_toString_integers b = None /\
  validate_part_000 Number_toString_integers b = None /\
  process_audio_start Number_toString_integers ∅ b "session" =
  {| phase := Fetching; files := ∅;
     calls := [ytdl_download "https://www.youtube.com/watch?v=dQw4w9WgXcQ"
                             "session_input.webm"];
     responses := []; headersSent := false; requestTimeout := true |}.
Proof.
  apply (non_numeric_passes_validation Number_toString_integers ∅
           {| videoId := JString "dQw4w9WgXcQ"; pitchShift := JString "high";
              playbackSpeed := JString "fast" |} "session" "dQw4w9WgXcQ").
  - reflexivity.
  - reflexivity.
  - reflexivity.
  - left. reflexivity.
  - left. reflexivity.
Defined.

Lemma video_too_long_rejected_witness :
  video_info Number_toString_integers "dQw4w9WgXcQ" (info_resolved (JString "601")) =
  ([ytdl_getInfo "https://www.youtube.com/watch?v=dQw4w9WgXcQ"],
   {| status := 400;
      body := json_error "Video too long. Please use videos under 10 minutes." |}).
Proof.
  apply (video_too_long_rejected Number_toString_integers "dQw4w9WgXcQ"
           (JString "601") "601"); reflexivity.
Defined.

Lemma accepted_done_cleaned_witness :
  session_cleaned "session"
    (process_audio Number_toString_integers {[ "other_input.webm"%string ]}
       {| videoId := JString "dQw4w9WgXcQ"; pitchShift := JNumber 2;
          playbackSpeed := JNumber (3#2) |}
       "session"
       [download_resolved; processing_resolved; audioStream_data;
        audioStream_end; cleanup_timer_fires]).
Proof.
  apply (accepted_done_cleaned Number_toString_integers
           {[ "other_input.webm"%string ]}
           {| videoId := JString "dQw4w9WgXcQ"; pitchShift := JNumber 2;
              playbackSpeed := JNumber (3#2) |}
           "session"
           [download_resolved; processing_resolved; audioStream_data;
            audioStream_end; cleanup_timer_fires]); reflexivity.
Defined.

Lemma accepted_request_filters_witness :
  (-12 <= 2 /\ 2 <= 12) /\ (1#4 <= 3#2 /\ 3#2 <= 2) /\
  exists fs, audioFilters 1 2 (3#2) = Some fs /\ (length fs <= 3)%nat.
Proof.
  apply (accepted_request_filters Number_toString_integers
           {| videoId := JString "dQw4w9WgXcQ"; pitchShift := JNumber 2;
              playbackSpeed := JNumber (3#2) |} 2 (3#2)); reflexivity.
Defined.

Lemma no_retries_witness :
  let b := {| videoId := JString "dQw4w9WgXcQ"; pitchShift := JNumber 2;
              playbackSpeed := JNumber (3#2) |} in
  let st := process_audio Number_toString_integers ∅ b "session"
              [download_resolved; requestTimeout_fires] in
  (calls st = [download_call Number_toString_integers b "session"] \/
   calls st = [download_call Number_toString_integers b "session";
               transcode_call b "session"]) /\
  (phase st = Fetching ->
   calls st = [download_call Number_toString_integers b "session"]) /\
  (calls st = [download_call Number_toString_integers b "session"] ->
   phase st = Fetching \/ phase st = Done).
Proof.
  apply (no_retries Number_toString_integers ∅
           {| videoId := JString "dQw4w9WgXcQ"; pitchShift := JNumber 2;
              playbackSpeed := JNumber (3#2) |}
           "session" [download_resolved; requestTimeout_fires]).
  reflexivity.
Defined.

Lemma finished_request_answered_witness :
  exists r,
    responses
      (process_audio Number_toString_integers ∅
         {| videoId := JString "dQw4w9WgXcQ"; pitchShift := JUndefined;
            playbackSpeed := JUndefined |}
         "session" [download_rejected writeStream_error true]) = [r] /\
    (status r = 200%nat \/ status r = 404%nat \/
     status r = 408%nat \/ status r = 500%nat).
Proof.
  apply (finished_request_answered Number_toString_integers ∅
           {| videoId := JString "dQw4w9WgXcQ"; pitchShift := JUndefined;
              playbackSpeed := JUndefined |}
           "session" [download_rejected writeStream_error true]); reflexivity.
Defined.

Lemma audio_only_after_both_adapters_witness :
  let b := {| videoId := JString "dQw4w9WgXcQ"; pitchShift := JNumber 2;
              playbackSpeed := JNumber (3#2) |} in
  let st := process_audio Number_toString_integers ∅ b "session"
              [download_resolved; processing_resolved; audioStream_data] in
  responses st = [audio_response] /\
  calls st = [download_call Number_toString_integers b "session";
              transcode_call b "session"] /\
  requestTimeout st = false.
Proof.
  apply (audio_only_after_both_adapters Number_toString_integers ∅
           {| videoId := JString "dQw4w9WgXcQ"; pitchShift := JNumber 2;
              playbackSpeed := JNumber (3#2) |}
           "session" [download_resolved; processing_resolved; audioStream_data]).
  - reflexivity.
  - apply (list_elem_of_here audio_response []).
Defined.

Lemma stream_error_keeps_files_witness :
  let b := {| videoId := JString "dQw4w9WgXcQ"; pitchShift := JString "high";
              playbackSpeed := JUndefined |} in
  let st := process_audio Number_toString_integers ∅ b "session"
              [download_resolved; processing_resolved; audioStream_error_event] in
  inputFile "session" ∈ files st /\ outputFile "session" ∈ files st /\
  forall more, foldl (step "session" b) st more = st.
Proof.
  apply (stream_error_keeps_files Number_toString_integers ∅
           {| videoId := JString "dQw4w9WgXcQ"; pitchShift := JString "high";
              playbackSpeed := JUndefined |}
           "session"
           [download_resolved; processing_resolved; audioStream_error_event]);
    reflexivity.
Defined.

Lemma files_present_while_needed_witness :
  let b := {| videoId := JString "dQw4w9WgXcQ"; pitchShift := JUndefined;
              playbackSpeed := JNumber (1#2) |} in
  let st := process_audio Number_toString_integers ∅ b "session"
              [download_resolved] in
  (phase st = Transforming -> inputFile "session" ∈ files st) /\
  (phase st = Streaming \/ phase st = Grace ->
   inputFile "session" ∈ files st /\ outputFile "session" ∈ files st).
Proof.
  apply (files_present_while_needed Number_toString_integers ∅
           {| videoId := JString "dQw4w9WgXcQ"; pitchShift := JUndefined;
              playbackSpeed := JNumber (1#2) |}
           "session" [download_resolved]).
  reflexivity.
Defined.

Lemma first_response_is_final_witness :
  let b := {| videoId := JString "dQw4w9WgXcQ"; pitchShift := JUndefined;
              playbackSpeed := JUndefined |} in
  responses (process_audio Number_toString_integers ∅ b "session"
               ([requestTimeout_fires]
                  ++ [download_rejected (audioStream_error "Video unavailable") false]))
  = responses (process_audio Number_toString_integers ∅ b "session"
                 [requestTimeout_fires]).
Proof.
  apply (first_response_is_final Number_toString_integers ∅
           {| videoId := JString "dQw4w9WgXcQ"; pitchShift := JUndefined;
              playbackSpeed := JUndefined |}
           "session" [requestTimeout_fires]
           [download_rejected (audioStream_error "Video unavailable") false]).
  discriminate.
Defined.

Lemma late_success_is_discarded_witness :
  let b := {| videoId := JString "dQw4w9WgXcQ"; pitchShift := JUndefined;
              playbackSpeed := JUndefined |} in
  let st := process_audio Number_toString_integers {[ "other_output.mp3"%string ]}
              b "session"
              ([requestTimeout_fires; download_resolved; processing_resolved]
                 ++ [audioStream_data]) in
  phase st = Done /\ responses st = [timeout_response] /\
  calls st = [download_call Number_toString_integers b "session";
              transcode_call b "session"] /\
  files st = {[ "other_output.mp3"%string ]} ∖ {[inputFile "session"]}
               ∖ {[outputFile "session"]}.
Proof.
  apply (late_success_is_discarded Number_toString_integers
           {[ "other_output.mp3"%string ]}
           {| videoId := JString "dQw4w9WgXcQ"; pitchShift := JUndefined;
              playbackSpeed := JUndefined |}
           "session" [audioStream_data]).
  reflexivity.
Defined.

Lemma adapter_failure_status_witness :
  let b := {| videoId := JString "dQw4w9WgXcQ"; pitchShift := JUndefined;
              playbackSpeed := JUndefined |} in
  let st := process_audio Number_toString_integers ∅ b "session"
              [requestTimeout_fires; download_resolved] in
  let st' := step "session" b st
               (processing_rejected (ffmpeg_error "Video unavailable") true) in
  phase st' = Done /\
  responses st' = (if headersSent st then [timeout_response]
                   else [catch_response
                           (processing_message (ffmpeg_error "Video unavailable"))]) /\
  calls st' = [download_call Number_toString_integers b "session";
               transcode_call b "session"].
Proof.
  refine (proj1 (proj2 (adapter_failure_status Number_toString_integers ∅
                          {| videoId := JString "dQw4w9WgXcQ"; pitchShift := JUndefined;
                             playbackSpeed := JUndefined |}
                          "session" [requestTimeout_fires; download_resolved] _))
            (ffmpeg_error "Video unavailable") true _); reflexivity.
Defined.

(** C2, as the specification states it, fails: the 400 for a video of 601
    seconds comes after the call to [ytdl.getInfo], not before any call. *)
Lemma video_too_long_counterexample :
  let result :=
    video_info Number_toString_integers "dQw4w9WgXcQ"
      (info_resolved (JString "601")) in
  JSNum_lt (Fin 600) (parseInt "601") = true /\
  status (snd result) = 400%nat /\
  ~ (fst result = []).
Proof. repeat split. discriminate. Qed.

(** The id check is the only 400 of the endpoint that precedes every call. *)
Example video_info_bad_id :
  video_info Number_toString_integers "short" (info_resolved (JString "30")) =
  ([], {| status := 400; body := json_error "Invalid video ID format" |}).
Proof. reflexivity. Qed.

(** The deadline and an adapter failure, in both orders: one response. *)
Example deadline_then_download_timeout :
  responses
    (process_audio Number_toString_integers ∅
       {| videoId := JString "dQw4w9WgXcQ"; pitchShift := JUndefined;
          playbackSpeed := JUndefined |}
       "session" [requestTimeout_fires; download_rejected download_timeout true])
  = [{| status := 408; body := json_error "Processing timeout" |}].
Proof. reflexivity. Qed.

Example download_failure_then_deadline :
  responses
    (process_audio Number_toString_integers ∅
       {| videoId := JString "dQw4w9WgXcQ"; pitchShift := JUndefined;
          playbackSpeed := JUndefined |}
       "session"
       [download_rejected (audioStream_error "Video unavailable") false;
        requestTimeout_fires])
  = [{| status := 404; body := json_error "Video not available" |}].
Proof. reflexivity. Qed.

(** The deadline answers 408 and the adapters succeed afterwards:
    [res.setHeader] throws, the [catch] block runs and sends nothing more. *)
Example deadline_then_success :
  let st :=
    process_audio Number_toString_integers ∅
      {| videoId := JString "dQw4w9WgXcQ"; pitchShift := JUndefined;
         playbackSpeed := JUndefined |}
      "session" [requestTimeout_fires; download_resolved; processing_resolved] in
  phase st = Done /\
  responses st = [{| status := 408; body := json_error "Processing timeout" |}].
Proof. split; reflexivity. Qed.

(** C3 fails on the code.  When the read stream of the output emits ['error']
    the handler has no listener for it: the 5 s cleanup is never scheduled,
    and whatever is delivered afterwards both files of the session stay in
    the temp directory. *)
Theorem stream_error_leaves_temp_files (events : list Event) :
  let st :=
    process_audio Number_toString_integers ∅
      {| videoId := JString "dQw4w9WgXcQ"; pitchShift := JNumber 2;
         playbackSpeed := JNumber (3#2) |}
      "session"
      ([download_resolved; processing_resolved; audioStream_data;
        audioStream_error_event] ++ events ++ [cleanup_timer_fires]) in
  phase st = Crashed /\
  "session_input.webm"%string ∈ files st /\
  "session_output.mp3"%string ∈ files st.
Proof.
  intros st. subst st. unfold process_audio. rewrite foldl_app.
  rewrite finished_run; simpl; auto.
  split; [reflexivity|]. split; set_solver.
Qed.

(** ** 5. The temp-file sweep *)

Lemma cleanup_file_lookup maxAge now (dir : gmap string Stats) file k :
  cleanup_file maxAge now dir file !! k =
  if decide (k = file)
  then dir !! k ≫= λ stats, if reaped maxAge now stats then None else Some stats
  else dir !! k.
Proof.
  unfold cleanup_file, reaped. destruct (decide (k = file)) as [->|Hne].
  - destruct (dir !! file) as [stats|] eqn:E; simpl; [|exact E].
    destruct (maxAge <? now - mtime stats)%Z; simpl; [|exact E].
    destruct (isDirectory stats); simpl; [exact E | apply lookup_delete_eq].
  - destruct (dir !! file) as [stats|]; trivial.
    destruct (maxAge <? now - mtime stats)%Z; trivial.
    destruct (isDirectory stats); trivial.
    apply lookup_delete_ne. congruence.
Qed.

Lemma foldl_cleanup_file_lookup maxAge now l : forall (dir : gmap string Stats) k,
  foldl (cleanup_file maxAge now) dir l !! k =
  if decide (k ∈ l)
  then dir !! k ≫= λ stats, if reaped maxAge now stats then None else Some stats
  else dir !! k.
Proof.
  induction l as [|file l IH]; intros dir k; simpl.
  - destruct (decide (k ∈ [])) as [H|_]; [|trivial]. now apply elem_of_nil in H.
  - rewrite IH, cleanup_file_lookup.
    destruct (decide (k ∈ l)) as [Hl|Hl], (decide (k = file)) as [->|Hne],
      (decide (_ ∈ file :: l)) as [Hc|Hc];
      try (exfalso; set_solver); trivial.
    destruct (dir !! file) as [stats|]; simpl; trivial.
    destruct (reaped maxAge now stats) eqn:E; simpl; [trivial | now rewrite E].
Qed.

Lemma elem_of_readdirSync (dir : gmap string Stats) k :
  k ∈ readdirSync dir <-> is_Some (dir !! k).
Proof.
  unfold readdirSync. rewrite list_elem_of_fmap. split.
  - intros ([k' stats] & -> & H). apply elem_of_map_to_list in H. now exists stats.
  - intros [stats H]. exists (k, stats). split; [trivial|].
    now apply elem_of_map_to_list.
Qed.

(** One run keeps exactly the entries it does not reap. *)
Lemma sweep_lookup maxAge now (dir : gmap string Stats) k :
  foldl (cleanup_file maxAge now) dir (readdirSync dir) !! k =
  dir !! k ≫= λ stats, if reaped maxAge now stats then None else Some stats.
Proof.
  rewrite foldl_cleanup_file_lookup.
  destruct (decide (k ∈ readdirSync dir)) as [H|H]; [trivial|].
  rewrite elem_of_readdirSync in H.
  destruct (dir !! k); [exfalso; apply H; eauto | reflexivity].
Qed.

Lemma sweep_idempotent maxAge now tempDir :
  sweep maxAge now (sweep maxAge now tempDir) = sweep maxAge now tempDir.
Proof.
  destruct tempDir as [dir|]; simpl; [|reflexivity]. f_equal.
  apply map_eq. intros k. rewrite !sweep_lookup.
  destruct (dir !! k) as [stats|]; simpl; [|reflexivity].
  destruct (reaped maxAge now stats) eqn:E; simpl; [reflexivity | now rewrite E].
Qed.

(** X2. A run at a later clock reading deletes what an earlier run would
    have deleted, and possibly more: after it the earlier run has left no
    trace. *)
Lemma sweep_later maxAge now now' tempDir :
  (now <= now')%Z ->
  sweep maxAge now' (sweep maxAge now tempDir) = sweep maxAge now' tempDir.
Proof.
  intros Hle. destruct tempDir as [dir|]; simpl; [|reflexivity]. f_equal.
  apply map_eq. intros k. rewrite !sweep_lookup.
  destruct (dir !! k) as [stats|]; simpl; [|reflexivity].
  destruct (reaped maxAge now stats) eqn:E; simpl; [|reflexivity].
  assert (reaped maxAge now' stats = true) as ->; [|reflexivity].
  unfold reaped in *. apply andb_true_iff in E as [E1 E2].
  rewrite E2, andb_true_r. apply Z.ltb_lt in E1. apply Z.ltb_lt. lia.
Qed.

Lemma sweep_later_witness :
  let dir : gmap string Stats :=
    {[ "a_input.webm"%string := {| mtime := 0; isDirectory := false |};
       "b_output.mp3"%string := {| mtime := 200000; isDirectory := false |};
       "c_input.webm"%string := {| mtime := 900000; isDirectory := false |};
       "d"%string := {| mtime := 0; isDirectory := true |} ]} in
  sweep 900000 1200000 (sweep 900000 1000000 (Some dir))
  = sweep 900000 1200000 (Some dir).
Proof.
  apply (sweep_later 900000 1000000 1200000
           (Some {[ "a_input.webm"%string := {| mtime := 0; isDirectory := false |};
                    "b_output.mp3"%string := {| mtime := 200000; isDirectory := false |};
                    "c_input.webm"%string := {| mtime := 900000; isDirectory := false |};
                    "d"%string := {| mtime := 0; isDirectory := true |} ]})).
  lia.
Defined.

(** In that directory the first run deletes one file and the second another. *)
Example sweep_later_runs :
  let dir : gmap string Stats :=
    {[ "a_input.webm"%string := {| mtime := 0; isDirectory := false |};
       "b_output.mp3"%string := {| mtime := 200000; isDirectory := false |};
       "c_input.webm"%string := {| mtime := 900000; isDirectory := false |};
       "d"%string := {| mtime := 0; isDirectory := true |} ]} in
  sweep 900000 1000000 (Some dir) = Some (delete "a_input.webm"%string dir) /\
  sweep 900000 1200000 (Some dir)
  = Some (delete "b_output.mp3"%string (delete "a_input.webm"%string dir)).
Proof. split; vm_compute; reflexivity. Qed.

(** A second run deletes nothing when no file the first run kept has passed
    the age limit by the second reading of the clock. *)
Lemma sweep_again maxAge now now' (dir : gmap string Stats) :
  (forall file stats,
      dir !! file = Some stats -> isDirectory stats = false ->
      (now - mtime stats <= maxAge)%Z -> (now' - mtime stats <= maxAge)%Z) ->
  sweep maxAge now' (sweep maxAge now (Some dir)) = sweep maxAge now (Some dir).
Proof.
  intros H. simpl. f_equal. apply map_eq. intros k. rewrite !sweep_lookup.
  destruct (dir !! k) as [stats|] eqn:Hk; simpl; [|reflexivity].
  destruct (reaped maxAge now stats) eqn:E; simpl; [reflexivity|].
  assert (reaped maxAge now' stats = false) as ->; [|reflexivity].
  unfold reaped in *. destruct (isDirectory stats) eqn:Hd;
    [apply andb_false_r|]. rewrite andb_true_r in *.
  apply Z.ltb_ge in E. apply Z.ltb_ge. now apply (H k).
Qed.

(** C8 (as amended). Each run reads the clock.  Running the sweep a second
    time over what the first run left deletes nothing, provided no file has
    passed the age of 15 minutes between the two readings of the clock (as
    when both read the same value): the directory after two runs is the
    directory after one. *)
Theorem cleanupTempFiles_idempotent (now now' : Z)
    (tempDir : option (gmap string Stats)) :
  (forall dir file stats,
      tempDir = Some dir -> dir !! file = Some stats -> isDirectory stats = false ->
      (now - mtime stats <= 900000)%Z -> (now' - mtime stats <= 900000)%Z) ->
  cleanupTempFiles now' (cleanupTempFiles now tempDir) = cleanupTempFiles now tempDir.
Proof.
  intros H. destruct tempDir as [dir|]; [|reflexivity].
  apply sweep_again. intros file stats. now apply H.
Qed.

Lemma cleanupTempFiles_idempotent_witness :
  let dir : gmap string Stats :=
    {[ "a_input.webm"%string := {| mtime := 0; isDirectory := false |};
       "b_output.mp3"%string := {| mtime := 400000; isDirectory := false |} ]} in
  cleanupTempFiles 1000500 (cleanupTempFiles 1000000 (Some dir))
  = cleanupTempFiles 1000000 (Some dir).
Proof.
  apply (cleanupTempFiles_idempotent 1000000 1000500
           (Some {[ "a_input.webm"%string := {| mtime := 0; isDirectory := false |};
                    "b_output.mp3"%string
                      := {| mtime := 400000; isDirectory := false |} ]})).
  intros dir file stats [= <-] Hf _.
  apply lookup_insert_Some in Hf as [[_ <-]|[_ Hf]]; [simpl; lia|].
  apply lookup_singleton_Some in Hf as [_ <-]. simpl. lia.
Defined.

(** There the first run deletes the older file and the second nothing. *)
Example cleanupTempFiles_twice :
  let dir : gmap string Stats :=
    {[ "a_input.webm"%string := {| mtime := 0; isDirectory := false |};
       "b_output.mp3"%string := {| mtime := 400000; isDirectory := false |} ]} in
  cleanupTempFiles 1000000 (Some dir) = Some (delete "a_input.webm"%string dir) /\
  cleanupTempFiles 1000500 (cleanupTempFiles 1000000 (Some dir))
  = Some (delete "a_input.webm"%string dir).
Proof. split; vm_compute; reflexivity. Qed.

(** The same holds of the 30-minute sweep of [part_000], and of both at one
    reading of the clock. *)
Lemma cleanupTempFiles_part_000_again (now now' : Z) (dir : gmap string Stats) :
  (forall file stats,
      dir !! file = Some stats -> isDirectory stats = false ->
      (now - mtime stats <= 1800000)%Z -> (now' - mtime stats <= 1800000)%Z) ->
  cleanupTempFiles_part_000 now' (cleanupTempFiles_part_000 now (Some dir))
  = cleanupTempFiles_part_000 now (Some dir).
Proof. apply sweep_again. Qed.

Lemma cleanupTempFiles_same_clock (now : Z) (tempDir : option (gmap string Stats)) :
  cleanupTempFiles now (cleanupTempFiles now tempDir) = cleanupTempFiles now tempDir /\
  cleanupTempFiles_part_000 now (cleanupTempFiles_part_000 now tempDir)
  = cleanupTempFiles_part_000 now tempDir.
Proof. split; apply sweep_idempotent. Qed.

(** C8, as the specification states it, fails: the second run reads the
    clock again, and a file that was exactly 15 minutes old at the first run,
    and kept, is older at the second, and deleted, with no file added in
    between. *)
Lemma cleanupTempFiles_counterexample :
  let dir : gmap string Stats :=
    {[ "a_input.webm"%string := {| mtime := 0; isDirectory := false |} ]} in
  cleanupTempFiles 900000 (Some dir) = Some dir /\
  cleanupTempFiles 900001 (cleanupTempFiles 900000 (Some dir)) = Some ∅ /\
  cleanupTempFiles 900001 (cleanupTempFiles 900000 (Some dir))
  <> cleanupTempFiles 900000 (Some dir).
Proof.
  split; [vm_compute; reflexivity|]. split; [vm_compute; reflexivity|].
  vm_compute. discriminate.
Qed.

(** X16. What a sweep keeps: an entry is in the temp directory after the
    sweep exactly when it was there before, unchanged, and is a directory or
    is not older than 15 minutes.  The sweep adds nothing, alters nothing,
    and never deletes a file written within the last 15 minutes. *)
Theorem cleanupTempFiles_keeps (now : Z) (dir : gmap string Stats) :
  exists dir',
    cleanupTempFiles now (Some dir) = Some dir' /\
    forall k stats,
      dir' !! k = Some stats <->
      dir !! k = Some stats /\
      (isDirectory stats = true \/ (now - mtime stats <= 900000)%Z).
Proof.
  eexists. split; [reflexivity|]. intros k stats. rewrite sweep_lookup.
  destruct (dir !! k) as [st|]; simpl;
    [|split; [discriminate | intros [? _]; discriminate]].
  unfold reaped.
  destruct (900000 <? now - mtime st)%Z eqn:E1, (isDirectory st) eqn:E2; simpl;
    try apply Z.ltb_lt in E1; try apply Z.ltb_ge in E1.
  - split; [intros [= <-]; rewrite E2; auto | intros [[= <-] _]; trivial].
  - split; [discriminate|]. intros [[= <-] [H|H]]; [congruence | lia].
  - split; [intros [= <-]; auto | intros [[= <-] _]; trivial].
  - split; [intros [= <-]; auto | intros [[= <-] _]; trivial].
Qed.

(** ** 6. The cleanup of [gracefulShutdown] *)

Lemma unlinkSync_forEach_lookup files : forall (dir : gmap string Stats) k stats,
  unlinkSync_forEach dir files !! k = Some stats -> dir !! k = Some stats.
Proof.
  induction files as [|file files IH]; intros dir k stats; simpl; [trivial|].
  destruct (dir !! file) as [st|] eqn:E; [|trivial].
  destruct (isDirectory st); [trivial|].
  intros H. apply IH in H. apply lookup_delete_Some in H. tauto.
Qed.

Lemma unlinkSync_forEach_directory files : forall (dir : gmap string Stats) k stats,
  dir !! k = Some stats -> isDirectory stats = true ->
  unlinkSync_forEach dir files !! k = Some stats.
Proof.
  induction files as [|file files IH]; intros dir k stats Hk Hd; simpl; [trivial|].
  destruct (dir !! file) as [st|] eqn:E; [|trivial].
  destruct (isDirectory st) eqn:Ed; [trivial|].
  apply IH; [|trivial]. rewrite lookup_delete_ne; [trivial|]. congruence.
Qed.

Lemma unlinkSync_forEach_all files : forall (dir : gmap string Stats),
  NoDup files ->
  (forall file, file ∈ files ->
     exists stats, dir !! file = Some stats /\ isDirectory stats = false) ->
  forall k,
    unlinkSync_forEach dir files !! k = if decide (k ∈ files) then None else dir !! k.
Proof.
  induction files as [|file files IH]; intros dir Hnd Hall k; simpl.
  - destruct (decide (k ∈ [])) as [H|_]; [|trivial]. now apply elem_of_nil in H.
  - apply NoDup_cons in Hnd as [Hnot Hnd].
    destruct (Hall file) as (st & -> & ->); [left|].
    rewrite IH; trivial.
    + destruct (decide (k ∈ files)) as [H1|H1],
        (decide (k ∈ file :: files)) as [H2|H2];
        try (exfalso; set_solver); trivial.
      * apply elem_of_cons in H2 as [->|H2]; [|contradiction].
        apply lookup_delete_eq.
      * rewrite lookup_delete_ne; [trivial|]. set_solver.
    + intros f Hf. destruct (Hall f) as (st' & H1 & H2); [now right|].
      exists st'. split; [|trivial]. rewrite lookup_delete_ne; [trivial|].
      intros ->. contradiction.
Qed.

(** X17. What the shutdown leaves of the temp directory: only entries that
    were there, unchanged; every directory that was there, because
    [unlinkSync] throws on it and the loop stops; and nothing at all when the
    temp directory holds no directory. *)
Theorem gracefulShutdown_cleanup_spec (dir : gmap string Stats) :
  exists dir',
    gracefulShutdown_cleanup (Some dir) = Some dir' /\
    dir' ⊆ dir /\
    (forall k stats, dir !! k = Some stats -> isDirectory stats = true ->
                     dir' !! k = Some stats) /\
    ((forall k stats, dir !! k = Some stats -> isDirectory stats = false) ->
     dir' = ∅).
Proof.
  eexists. split; [reflexivity|]. split; [|split].
  - apply map_subseteq_spec. intros k stats. apply unlinkSync_forEach_lookup.
  - intros k stats. apply unlinkSync_forEach_directory.
  - intros Hfiles. apply map_eq. intros k. rewrite lookup_empty.
    rewrite unlinkSync_forEach_all.
    + destruct (decide (k ∈ readdirSync dir)) as [H|H]; [trivial|].
      rewrite elem_of_readdirSync in H.
      destruct (dir !! k); [exfalso; apply H; eauto | trivial].
    + apply NoDup_fst_map_to_list.
    + intros file Hf. apply elem_of_readdirSync in Hf as [stats Hs].
      exists stats. split; [trivial|]. eapply Hfiles, Hs.
Qed.

(** A directory in the temp directory is skipped by the sweep and stops the
    shutdown: the sweep still deletes the old file, the shutdown may not reach
    it. *)
Example directory_in_temp :
  let dir : gmap string Stats :=
    {[ "a"%string := {| mtime := 0; isDirectory := true |} ]} in
  cleanupTempFiles 1000000 (Some dir) = Some dir /\
  gracefulShutdown_cleanup (Some dir) = Some dir.
Proof. split; vm_compute; reflexivity. Qed.

(** ** 7. [formatDuration] and [formatNumber] *)

Example formatDuration_examples :
  formatDuration 45 = "0:45"%string /\ formatDuration 125 = "2:05"%string /\
  formatDuration 3725 = "1:02:05"%string /\ formatDuration (-42) = "-1:-42"%string.
Proof. repeat split; reflexivity. Qed.

Example formatNumber_examples :
  formatNumber 999 = "999"%string /\ formatNumber 1500 = "1.5K"%string /\
  formatNumber 2500000 = "2.5M"%string /\ formatNumber 1450 = "1.4K"%string /\
  formatNumber 1250 = "1.3K"%string.
Proof. repeat split; vm_compute; reflexivity. Qed.

Lemma length_append (s1 s2 : string) :
  String.length (s1 ++ s2)%string = (String.length s1 + String.length s2)%nat.
Proof. induction s1 as [|c s1 IH]; simpl; [reflexivity | now rewrite IH]. Qed.

Lemma append_cons c (s1 s2 : string) :
  (String c s1 ++ s2)%string = String c (s1 ++ s2)%string.
Proof. reflexivity. Qed.

Lemma append_inj_suffix (a c b d : string) :
  String.length b = String.length d ->
  (a ++ b)%string = (c ++ d)%string -> a = c /\ b = d.
Proof.
  revert c. induction a as [|x a IH]; intros [|y c] Hlen E.
  - auto.
  - exfalso. apply (f_equal String.length) in E.
    rewrite !length_append in E. simpl in E. lia.
  - exfalso. apply (f_equal String.length) in E.
    rewrite !length_append in E. simpl in E. lia.
  - rewrite !append_cons in E. injection E as -> E.
    destruct (IH c Hlen E) as [-> ->]. auto.
Qed.

(** Minutes and seconds take two characters each, which [parseInt] reads
    back. *)
Lemma two_digits x :
  (0 <= x < 60)%Z ->
  String.length (padStart0 2 (pretty x)) = 2%nat /\
  (String.length (pretty x) <= 2)%nat /\
  parseInt (padStart0 2 (pretty x)) = Fin (inject_Z x).
Proof.
  intros H. assert (exists n, (n < 60)%nat /\ x = Z.of_nat n) as (n & Hn & ->).
  { exists (Z.to_nat x). lia. }
  clear H. do 60 (destruct n as [|n]; [vm_compute; repeat split; lia|]). lia.
Qed.

Lemma two_digits_inj x y :
  (0 <= x < 60)%Z -> (0 <= y < 60)%Z ->
  padStart0 2 (pretty x) = padStart0 2 (pretty y) -> x = y.
Proof.
  intros Hx Hy E.
  destruct (two_digits x Hx) as (_ & _ & Px), (two_digits y Hy) as (_ & _ & Py).
  rewrite E, Py in Px. injection Px as Px. unfold inject_Z in Px. congruence.
Qed.

Lemma pretty_N_go_length x : forall s,
  (String.length s <= String.length (pretty_N_go x s))%nat.
Proof.
  induction (N.lt_wf_0 x) as [x _ IH]; intros s.
  assert (x = 0 \/ 0 < x)%N as [->|Hx] by lia; [now rewrite pretty_N_go_0|].
  rewrite pretty_N_go_step by exact Hx.
  etransitivity; [|apply IH; now apply N.div_lt]. simpl. lia.
Qed.

Lemma pretty_pos_length (h : Z) : (0 < h)%Z -> (1 <= String.length (pretty h))%nat.
Proof.
  destruct h as [|p|p]; try lia. intros _.
  unfold pretty, pretty_Z, pretty, pretty_positive, pretty, pretty_N.
  destruct (decide (N.pos p = 0%N)) as [E|_]; [discriminate|].
  rewrite pretty_N_go_step by lia.
  etransitivity; [|apply pretty_N_go_length]. simpl. lia.
Qed.

Lemma duration_parts (a : Z) :
  (0 <= a)%Z ->
  (0 <= a mod 3600 / 60 < 60 /\ 0 <= a mod 60 < 60 /\ 0 <= a / 3600 /\
   a = 3600 * (a / 3600) + 60 * (a mod 3600 / 60) + a mod 60)%Z.
Proof.
  intros Ha.
  pose proof (Z.mod_pos_bound a 3600 eq_refl).
  pose proof (Z.div_mod a 3600 ltac:(lia)).
  pose proof (Z.mod_pos_bound (a mod 3600) 60 eq_refl).
  pose proof (Z.div_mod (a mod 3600) 60 ltac:(lia)).
  assert (a mod 60 = (a mod 3600) mod 60)%Z as ->.
  { symmetry. apply Z.mod_mod_divide. exists 60%Z. reflexivity. }
  pose proof (Z.div_pos a 3600 Ha eq_refl).
  assert (0 <= a mod 3600 / 60)%Z by (apply Z.div_pos; lia).
  assert (a mod 3600 / 60 < 60)%Z by (apply Z.div_lt_upper_bound; lia).
  lia.
Qed.

(** X18. Two different durations are never shown alike: on whole numbers of
    seconds that are not negative [formatDuration] is injective. *)
Theorem formatDuration_inj (a b : Z) :
  (0 <= a)%Z -> (0 <= b)%Z -> formatDuration a = formatDuration b -> a = b.
Proof.
  intros Ha Hb. unfold formatDuration.
  rewrite !Z.rem_mod_nonneg by lia.
  destruct (duration_parts a Ha) as (Hma & Hsa & Hha & Ea).
  destruct (duration_parts b Hb) as (Hmb & Hsb & Hhb & Eb).
  revert Hma Hsa Hha Ea Hmb Hsb Hhb Eb.
  generalize (a / 3600)%Z (b / 3600)%Z (a mod 3600 / 60)%Z (b mod 3600 / 60)%Z
    (a mod 60)%Z (b mod 60)%Z.
  intros ha hb ma mb sa sb Hma Hsa Hha Ea Hmb Hsb Hhb Eb.
  destruct (two_digits ma Hma) as (Lma & Lpa & _),
    (two_digits mb Hmb) as (Lmb & Lpb & _).
  destruct (two_digits sa Hsa) as (Lsa & _ & _), (two_digits sb Hsb) as (Lsb & _ & _).
  assert (forall x y : string,
             String.length x = 2%nat -> String.length y = 2%nat ->
             String.length (":" ++ x ++ ":" ++ y) = 6%nat) as L6.
  { intros x y Hx Hy. rewrite !length_append, Hx, Hy. reflexivity. }
  assert (forall y : string,
             String.length y = 2%nat -> String.length (":" ++ y) = 3%nat) as L3.
  { intros y Hy. rewrite !length_append, Hy. reflexivity. }
  destruct (0 <? ha)%Z eqn:Ca, (0 <? hb)%Z eqn:Cb; intros E.
  - apply append_inj_suffix in E as [Eh E]; [|now rewrite !L6].
    apply (inj pretty) in Eh. apply (inj (String.append ":")) in E.
    apply append_inj_suffix in E as [Em E]; [|now rewrite !L3].
    apply (inj (String.append ":")) in E as Es.
    apply two_digits_inj in Em, Es; trivial. lia.
  - exfalso. apply Z.ltb_lt in Ca. pose proof (pretty_pos_length ha Ca).
    apply (f_equal String.length) in E. revert E.
    rewrite (length_append (pretty ha)), (length_append (pretty mb)), L6, L3
      by trivial.
    lia.
  - exfalso. apply Z.ltb_lt in Cb. pose proof (pretty_pos_length hb Cb).
    apply (f_equal String.length) in E. revert E.
    rewrite (length_append (pretty hb)), (length_append (pretty ma)), L6, L3
      by trivial.
    lia.
  - apply Z.ltb_ge in Ca, Cb.
    apply append_inj_suffix in E as [Em E]; [|now rewrite !L3].
    apply (inj pretty) in Em. apply (inj (String.append ":")) in E as Es.
    apply two_digits_inj in Es; trivial. lia.
Qed.

Lemma formatDuration_inj_witness : 3725%Z = (3600 + 125)%Z.
Proof.
  apply (formatDuration_inj 3725 (3600 + 125)); [lia | lia | reflexivity].
Defined.

(** X19. A count from 999950 to 999999 is divided by 1000 and rounded to one
    digit, which gives 1000.0: it is shown as "1000.0K", not as "1.0M". *)
Theorem formatNumber_below_a_million (n : Z) :
  (999950 <= n <= 999999)%Z -> formatNumber n = "1000.0K"%string.
Proof.
  intros H.
  assert (exists k, (k < 50)%nat /\ n = (999950 + Z.of_nat k)%Z) as (k & Hk & ->).
  { exists (Z.to_nat (n - 999950)). lia. }
  clear H. do 50 (destruct k as [|k]; [vm_compute; reflexivity|]). lia.
Qed.

Lemma formatNumber_below_a_million_witness : formatNumber 999999 = "1000.0K"%string.
Proof. apply (formatNumber_below_a_million 999999). lia. Defined.
